(** * alot.commands.globals: the global-mode commands of the alot mail client

    A shallow embedding of [alot/commands/globals.py].  Every command class
    becomes a record holding what [__init__] stores on [self], and its
    [apply(self, ui)] becomes a function on an explicit model of the [ui]
    object.  Commands decorated with [defer.inlineCallbacks] are generators:
    they are embedded as resumable state machines, one state per [yield].

    The user-interface object itself ([alot/ui.py]), the buffer classes, the
    command registry and the helpers are not part of this file of the
    repository; what the commands need of them is modelled from the
    specification or taken as a section variable, and marked as such. *)

From Stdlib Require Import ZArith Lia Ascii String.
From stdpp Require Import base option list strings pretty gmap.

Local Open Scope string_scope.
Local Open Scope list_scope.
Local Open Scope Z_scope.

(** ** Python values and exceptions *)

(** The exceptions that can leave an [apply] method. *)
Inductive Exn : Type :=
  | ValueError
  | IndexError
  | ZeroDivisionError
  | AttributeError
  | OSError
  | DatabaseLockedError
  | OtherError (what : string).

(** A computation that either returns or raises. *)
Inductive result (A : Type) : Type :=
  | Ok (a : A)
  | Raise (e : Exn).
Arguments Ok {A} a.
Arguments Raise {A} e.

Definition rbind {A B} (r : result A) (k : A -> result B) : result B :=
  match r with
  | Ok a => k a
  | Raise e => Raise e
  end.

Notation "x <-! r ; k" := (rbind r (fun x => k))
  (at level 100, r at next level, right associativity).

(** ** Buffers *)

(** The buffer classes of [alot.buffers] that this module instantiates or
    inspects, with the attributes it reads. *)
Inductive BufferBody : Type :=
  | SearchBuffer (querystring : string)
  | BufferlistBuffer (filtfun : option nat)
  | TagListBuffer (tags : list string) (filtfun : option nat)
  | EnvelopeBuffer (mail : list (string * string))
  | OtherBuffer (typename : string).

(** The type tags used with [ui.get_buffers_of_type]. *)
Inductive BufferType : Type :=
  | TSearch | TBufferlist | TTagList | TEnvelope | TOther.

Global Instance BufferType_eq_dec : EqDecision BufferType.
Proof. solve_decision. Defined.

Definition type_of_body (b : BufferBody) : BufferType :=
  match b with
  | SearchBuffer _ => TSearch
  | BufferlistBuffer _ => TBufferlist
  | TagListBuffer _ _ => TTagList
  | EnvelopeBuffer _ => TEnvelope
  | OtherBuffer _ => TOther
  end.

(** A buffer is a Python object: [ident] is its identity, which is what
    [==], [in] and [list.index] compare, since the buffer classes define no
    equality of their own. *)
Record Buffer : Type := mkBuffer {
  ident : nat;
  body : BufferBody
}.

Definition same_buffer (a b : Buffer) : bool := Nat.eqb (ident a) (ident b).

Definition querystring_of (b : Buffer) : option string :=
  match body b with
  | SearchBuffer q => Some q
  | _ => None
  end.

(** [b in bufs] *)
Definition buffer_in (b : Buffer) (bufs : list Buffer) : bool :=
  existsb (same_buffer b) bufs.

(** [bufs.index(b)]: the first position holding [b]; [None] stands for the
    [ValueError] Python raises when there is none. *)
Fixpoint index_of (b : Buffer) (bufs : list Buffer) : option nat :=
  match bufs with
  | [] => None
  | x :: rest =>
      if same_buffer x b then Some O
      else S <$> index_of b rest
  end.

(** ** The user interface object *)

(** What the storage collaborator answers to one [flush()] call. *)
Inductive FlushOutcome : Type :=
  | FlushDone
  | FlushLocked
  | FlushFailed (what : string).

(** Callbacks handed to [ui.mainloop.set_alarm_in]. *)
Inductive Callback : Type :=
  | FlushRetry.

Record Account : Type := mkAccount {
  realname : string;
  address : string
}.

(** What a command leaves behind for the user, in the order it happened. *)
Inductive Event : Type :=
  | EvNotify (message : string)
  | EvUpdate
  | EvLogInfo (message : string)
  | EvLogDebugBool (b : bool)
  | EvLogDebugBooks (order : list (option Account)) (append_remaining : bool)
  | EvAlarm (delay : Z) (cb : Callback)
  | EvScreenStop
  | EvScreenStart
  | EvEnvelopeEdit (mail : list (string * string)).

Record UI : Type := mkUI {
  buffers : list Buffer;
  current_buffer : option Buffer;
  events : list Event;
  alarms : list (Z * Callback);
  dbman : list FlushOutcome;
  flush_calls : nat;
  accounts : list Account
}.

Definition set_buffers (bs : list Buffer) (ui : UI) : UI :=
  mkUI bs (current_buffer ui) (events ui) (alarms ui) (dbman ui)
       (flush_calls ui) (accounts ui).

Definition set_current (c : option Buffer) (ui : UI) : UI :=
  mkUI (buffers ui) c (events ui) (alarms ui) (dbman ui)
       (flush_calls ui) (accounts ui).

Definition emit (e : Event) (ui : UI) : UI :=
  mkUI (buffers ui) (current_buffer ui) (events ui ++ [e]) (alarms ui)
       (dbman ui) (flush_calls ui) (accounts ui).

Definition notifications (ui : UI) : list string :=
  omap (fun e => match e with EvNotify m => Some m | _ => None end) (events ui).

(** Modelled from the spec: [ui.notify] of alot/ui.py, "notify(message)" of
    the application context; the message becomes visible to the user. *)
Definition notify (message : string) (ui : UI) : UI := emit (EvNotify message) ui.

(** Modelled from the spec: [ui.update] of alot/ui.py, the redraw request to
    the rendering collaborator. *)
Definition update (ui : UI) : UI := emit EvUpdate ui.

(** Modelled from the spec: [ui.buffer_focus] of alot/ui.py, "focus(buffer)
    sets focus to an existing member (precondition: member of stack)".
    Outside the precondition the request is dropped. *)
Definition buffer_focus (b : Buffer) (ui : UI) : UI :=
  if buffer_in b (buffers ui) then set_current (Some b) ui else ui.

(** Modelled from the spec: [ui.buffer_open] of alot/ui.py, "open(buffer)
    appends and focuses". *)
Definition buffer_open (b : Buffer) (ui : UI) : UI :=
  buffer_focus b (set_buffers (buffers ui ++ [b]) ui).

(** Modelled from the spec: [ui.get_buffers_of_type] of alot/ui.py,
    "find_by_type(tag) -> sequence returns all buffers matching, in stack
    order". *)
Definition get_buffers_of_type (t : BufferType) (ui : UI) : list Buffer :=
  filter (fun b => type_of_body (body b) = t) (buffers ui).

(** The identity of a newly constructed buffer object: different from that
    of every buffer the interface still refers to. *)
Definition fresh_ident (ui : UI) : nat :=
  S (foldr Nat.max O (ident <$> (buffers ui ++ option_list (current_buffer ui)))).

(** How a call of [apply] ends: it returns, or an exception leaves it; in
    both cases the interface is in the state the call left it in. *)
Inductive Outcome : Type :=
  | Done (ui : UI)
  | Failed (e : Exn) (ui : UI).

Definition final_ui (o : Outcome) : UI :=
  match o with
  | Done ui => ui
  | Failed _ ui => ui
  end.

(** ** [BufferFocusCommand] *)

Record BufferFocusCommand : Type := mkBufferFocus {
  bf_buffer : option Buffer;
  bf_offset : Z
}.

Section BufferFocus.

(** [BufferlistBuffer.get_selected_buffer] of alot/buffers.py: the buffer
    under the cursor of a buffer list; other buffers have no such method. *)
Variable get_selected_buffer : Buffer -> result Buffer.

Definition BufferFocusCommand_apply (self : BufferFocusCommand) (ui : UI)
  : Outcome :=
  if negb (bf_offset self =? 0) then
    match current_buffer ui with
    | None => Failed ValueError ui
    | Some cur =>
        match index_of cur (buffers ui) with
        | None => Failed ValueError ui
        | Some idx =>
            let num := Z.of_nat (length (buffers ui)) in
            if num =? 0 then Failed ZeroDivisionError ui
            else
              match buffers ui !! Z.to_nat ((Z.of_nat idx + bf_offset self) mod num) with
              | None => Failed IndexError ui
              | Some b => Done (buffer_focus b ui)
              end
        end
    end
  else
    match bf_buffer self with
    | Some b => Done (buffer_focus b ui)
    | None =>
        match current_buffer ui with
        | None => Failed AttributeError ui
        | Some cur =>
            match get_selected_buffer cur with
            | Ok b => Done (buffer_focus b ui)
            | Raise e => Failed e ui
            end
        end
    end.

(** [n] successive runs of the command, stopping at the first exception. *)
Fixpoint BufferFocusCommand_repeat (n : nat) (self : BufferFocusCommand)
  (ui : UI) : Outcome :=
  match n with
  | O => Done ui
  | S m =>
      match BufferFocusCommand_apply self ui with
      | Done ui' => BufferFocusCommand_repeat m self ui'
      | Failed e ui' => Failed e ui'
      end
  end.

End BufferFocus.

(** ** [OpenBufferlistCommand] *)

Record OpenBufferlistCommand : Type := mkOpenBufferlist {
  ob_filtfun : option nat
}.

Definition OpenBufferlistCommand_apply (self : OpenBufferlistCommand) (ui : UI)
  : Outcome :=
  let blists := get_buffers_of_type TBufferlist ui in
  match blists with
  | first :: _ => Done (buffer_focus first ui)
  | [] =>
      Done (buffer_open (mkBuffer (fresh_ident ui) (BufferlistBuffer (ob_filtfun self))) ui)
  end.

(** ** Generators

    A command whose [apply] is decorated with [defer.inlineCallbacks]
    suspends at every [yield] with a request to the user and is resumed
    with the answer.  [Yield] carries the state to resume from. *)

Inductive Completer : Type :=
  | NoCompleter
  | AccountCompleter (known : list Account)
  | ContactsCompleter (order : list (option Account)) (append_remaining : bool).

Inductive Request : Type :=
  | ReqChoice (msg select cancel : string)
  | ReqPrompt (prefix : string) (completer : Completer) (tab : nat).

Inductive Step (S : Type) : Type :=
  | Yield (r : Request) (s : S) (ui : UI)
  | Finish (o : Outcome).
Arguments Yield {S} r s ui.
Arguments Finish {S} o.

(** The answer to a request: the text entered or chosen, [None] when the
    user cancels a prompt. *)
Definition Answer : Type := option string.

(** Answers the requests of a generator from a list, in order, until the
    generator finishes or the answers run out. *)
Fixpoint drive {S : Type} (resume : S -> Answer -> UI -> Step S)
  (answers : list Answer) (st : Step S) : Step S :=
  match st, answers with
  | Yield _ s ui, a :: rest => drive resume rest (resume s a ui)
  | _, _ => st
  end.

(** ** [SearchCommand] *)

Record SearchCommand : Type := mkSearch {
  query : string
}.

Fixpoint join (sep : string) (parts : list string) : string :=
  match parts with
  | [] => ""
  | [p] => p
  | p :: rest => p +:+ sep +:+ join sep rest
  end.

Definition SearchCommand_init (query : list string) : SearchCommand :=
  mkSearch (join " " query).

(** The loop over the open search buffers: the last one whose querystring
    equals [q] is kept. *)
Definition to_be_focused (q : string) (open_searches : list Buffer)
  : option Buffer :=
  fold_left
    (fun acc sb => if bool_decide (querystring_of sb = Some q) then Some sb else acc)
    open_searches None.

(** Lines 57 to 65: focus the matching search buffer or open a new one. *)
Definition SearchCommand_open (self : SearchCommand) (ui : UI) : UI :=
  let open_searches := get_buffers_of_type TSearch ui in
  match to_be_focused (query self) open_searches with
  | Some sb => buffer_focus sb ui
  | None => buffer_open (mkBuffer (fresh_ident ui) (SearchBuffer (query self))) ui
  end.

Definition search_all_question : string :=
  "really search for all threads? This takes a while..".

Definition SearchCommand_apply (self : SearchCommand) (ui : UI) : Step unit :=
  if bool_decide (query self <> "") then
    if bool_decide (query self = "*") && bool_decide (is_Some (current_buffer ui))
    then Yield (ReqChoice search_all_question "yes" "no") tt ui
    else Finish (Done (SearchCommand_open self ui))
  else Finish (Done (notify "empty query string" ui)).

(** Resumption after the [yield ui.choice(...)] of line 55. *)
Definition SearchCommand_resume (self : SearchCommand) (_ : unit)
  (answer : Answer) (ui : UI) : Step unit :=
  if bool_decide (answer = Some "no") then Finish (Done ui)
  else Finish (Done (SearchCommand_open self ui)).

(** The command run to its end with the given answers. *)
Definition SearchCommand_run (self : SearchCommand) (answers : list Answer)
  (ui : UI) : Step unit :=
  drive (SearchCommand_resume self) answers (SearchCommand_apply self ui).

(** ** Configuration *)

(** The options of [settings.config] that this module reads, already parsed
    to their types ([getboolean], [getint], [get]). *)
Record Config : Type := mkConfig {
  bug_on_exit : bool;
  spawn_editor : bool;
  editor_cmd : string;
  terminal_cmd : string;
  flush_retry_timeout : Z;
  ask_subject : bool;
  complete_matching_abook_only : bool
}.

(** ** [FlushCommand] and the alarms of the main loop *)

(** [ui.dbman.flush()]: the storage collaborator answers the calls in the
    order of its script and succeeds once the script is used up. *)
Definition dbman_flush (ui : UI) : FlushOutcome * UI :=
  let o := match dbman ui with [] => FlushDone | o :: _ => o end in
  (o, mkUI (buffers ui) (current_buffer ui) (events ui) (alarms ui)
           (tail (dbman ui)) (S (flush_calls ui)) (accounts ui)).

(** [ui.mainloop.set_alarm_in(delay, cb)] of urwid: the callback is queued
    to fire once, [delay] seconds from now. *)
Definition set_alarm_in (delay : Z) (cb : Callback) (ui : UI) : UI :=
  emit (EvAlarm delay cb)
    (mkUI (buffers ui) (current_buffer ui) (events ui) (alarms ui ++ [(delay, cb)])
          (dbman ui) (flush_calls ui) (accounts ui)).

Definition pop_alarm (ui : UI) : option (Callback * UI) :=
  match alarms ui with
  | [] => None
  | (_, cb) :: rest =>
      Some (cb, mkUI (buffers ui) (current_buffer ui) (events ui) rest
                     (dbman ui) (flush_calls ui) (accounts ui))
  end.

(** ['index locked, will try again in %d secs' % timeout] *)
Definition locked_message (timeout : Z) : string :=
  "index locked, will try again in " +:+ pretty timeout +:+ " secs".

Section Flush.

Variable config : Config.

Definition FlushCommand_apply (ui : UI) : Outcome :=
  match dbman_flush ui with
  | (FlushDone, ui1) => Done ui1
  | (FlushLocked, ui1) =>
      let timeout := flush_retry_timeout config in
      let ui2 := set_alarm_in timeout FlushRetry ui1 in
      let ui3 := notify (locked_message timeout) ui2 in
      Done (update ui3)
  | (FlushFailed what, ui1) => Failed (OtherError what) ui1
  end.

(** The closure [f] of line 273. *)
Definition run_callback (cb : Callback) (ui : UI) : Outcome :=
  match cb with
  | FlushRetry => FlushCommand_apply ui
  end.

(** The main loop firing the pending alarms, oldest first (all alarms of
    this module carry the same delay), until none is left; [None] when
    [fuel] alarms were not enough. *)
Fixpoint mainloop (fuel : nat) (ui : UI) : option Outcome :=
  match pop_alarm ui with
  | None => Some (Done ui)
  | Some (cb, ui1) =>
      match fuel with
      | O => None
      | S fuel' =>
          match run_callback cb ui1 with
          | Done ui2 => mainloop fuel' ui2
          | Failed e ui2 => Some (Failed e ui2)
          end
      end
  end.

(** The flush command followed by the main loop. *)
Definition flush_session (fuel : nat) (ui : UI) : option Outcome :=
  match FlushCommand_apply ui with
  | Done ui1 => mainloop fuel ui1
  | Failed e ui1 => Some (Failed e ui1)
  end.

End Flush.

(** ** [ExternalCommand] *)

Record ExternalCommand : Type := mkExternal {
  commandstring : string;
  path : option string;
  spawn : bool;
  refocus : bool;
  in_thread : bool;
  on_success : option (UI -> UI)
}.

(** [s.startswith(p)] *)
Fixpoint startswith (p s : string) : bool :=
  match p, s with
  | EmptyString, _ => true
  | String a p', String b s' => bool_decide (a = b) && startswith p' s'
  | String _ _, EmptyString => false
  end.

(** [old in s], for a non-empty [old]. *)
Fixpoint contains (old s : string) : bool :=
  startswith old s ||
  match s with
  | EmptyString => false
  | String _ rest => contains old rest
  end.

(** [s.replace(old, new)] for a non-empty [old]: every occurrence, leftmost
    first and not overlapping; [skip] counts the characters of a replaced
    occurrence still to be dropped. *)
Fixpoint replace_from (old new s : string) (skip : nat) : string :=
  match s with
  | EmptyString => EmptyString
  | String c rest =>
      match skip with
      | S k => replace_from old new rest k
      | O =>
          if startswith old s
          then new +:+ replace_from old new rest (Nat.pred (String.length old))
          else String c (replace_from old new rest O)
      end
  end.

Definition replace (old new s : string) : string := replace_from old new s O.

(** Truth value of [self.path]: neither [None] nor the empty string. *)
Definition path_given (p : option string) : option string :=
  match p with
  | Some s => if bool_decide (s = "") then None else Some s
  | None => None
  end.

Section External.

Variable config : Config.
(** [helper.shell_quote] of alot/helper.py. *)
Variable shell_quote : string -> string.
(** [cmd.encode('utf-8', errors='ignore')] *)
Variable encode_utf8 : string -> string.
(** [shlex.split] *)
Variable shlex_split : string -> result (list string).
(** [subprocess.call]: the exit code of the process, or the exception
    raised when it cannot be started. *)
Variable subprocess_call : list string -> result Z.

(** Lines 133 to 141: the command template with the path put in. *)
Definition cmd_with_path (self : ExternalCommand) : string :=
  match path_given (path self) with
  | Some p =>
      if contains "{}" (commandstring self)
      then replace "{}" (shell_quote p) (commandstring self)
      else commandstring self +:+ " " +:+ shell_quote p
  | None => commandstring self
  end.

(** Lines 143 to 146: the command line to run. *)
Definition command_line (self : ExternalCommand) : string :=
  let cmd := cmd_with_path self in
  if spawn self then terminal_cmd config +:+ " " +:+ cmd else cmd.

(** [thread_code]: returns what was written to the pipe. *)
Definition thread_code (self : ExternalCommand) (ui : UI)
  : result (list string) * UI :=
  let cmd := encode_utf8 (command_line self) in
  let ui1 := emit (EvLogInfo ("calling external command: " +:+ cmd)) ui in
  match shlex_split cmd with
  | Raise e => (Raise e, ui1)
  | Ok argv =>
      match subprocess_call argv with
      | Raise e => (Raise e, ui1)
      | Ok returncode =>
          if returncode =? 0 then (Ok ["success"], ui1) else (Ok [], ui1)
      end
  end.

(** The closure [afterwards] of line 123; [callerbuffer] is the buffer that
    was current when the command was applied. *)
Definition afterwards (self : ExternalCommand) (callerbuffer : option Buffer)
  (data : string) (ui : UI) : UI :=
  let ui1 :=
    match on_success self with
    | Some f => if bool_decide (data = "success") then f ui else ui
    | None => ui
    end in
  match callerbuffer with
  | Some cb =>
      if refocus self && buffer_in cb (buffers ui1)
      then buffer_focus cb (emit (EvLogInfo "refocussing") ui1)
      else ui1
  | None => ui1
  end.

(** The pipe registered with [ui.mainloop.watch_pipe]: the watching
    callback and what has been written to it. *)
Record Pipe : Type := mkPipe {
  watcher : string -> UI -> UI;
  written : list string
}.

(** [apply]: the state it leaves and the pipe the main loop watches.  In a
    thread, an exception of [thread_code] ends the thread only. *)
Definition ExternalCommand_apply (self : ExternalCommand) (ui : UI)
  : Outcome * Pipe :=
  let callerbuffer := current_buffer ui in
  let watch := afterwards self callerbuffer in
  if in_thread self then
    match thread_code self ui with
    | (Ok data, ui1) => (Done ui1, mkPipe watch data)
    | (Raise _, ui1) => (Done ui1, mkPipe watch [])
    end
  else
    match thread_code self (emit EvScreenStop ui) with
    | (Ok data, ui1) => (Done (emit EvScreenStart ui1), mkPipe watch data)
    | (Raise e, ui1) => (Failed e ui1, mkPipe watch [])
    end.

(** The main loop handing what was written to the pipe to its watcher. *)
Definition deliver (p : Pipe) (ui : UI) : UI :=
  fold_left (fun u data => watcher p data u) (written p) ui.

End External.

(** ** [ComposeCommand] *)

(** The headers of an [email.message.Message], in order; header names are
    matched without regard to case, and assignment appends. *)
Definition Message : Type := list (string * string).

Definition lower_ascii (c : ascii) : ascii :=
  let n := nat_of_ascii c in
  if (Nat.leb 65 n && Nat.leb n 90)%bool then ascii_of_nat (n + 32) else c.

Fixpoint lower (s : string) : string :=
  match s with
  | EmptyString => EmptyString
  | String c rest => String (lower_ascii c) (lower rest)
  end.

(** [name in msg] *)
Definition msg_contains (name : string) (msg : Message) : bool :=
  existsb (fun kv => bool_decide (lower (fst kv) = lower name)) msg.

(** [msg.get(name)] *)
Definition msg_get (name : string) (msg : Message) : option string :=
  snd <$> find (fun kv => bool_decide (lower (fst kv) = lower name)) msg.

(** [msg[name] = value] *)
Definition msg_set (name value : string) (msg : Message) : Message :=
  msg ++ [(name, value)].

(** The headers of a new [MIMEMultipart()]. *)
Definition new_multipart : Message :=
  [("Content-Type", "multipart/mixed"); ("MIME-Version", "1.0")].

Definition no_account_message : string :=
  "no account for this address. (<esc> cancels)".

Record ComposeCommand : Type := mkCompose {
  mail : Message
}.

(** Where [ComposeCommand.apply] is suspended. *)
Inductive ComposePC : Type :=
  | AtFrom (accounts : list Account)
  | AtTo
  | AtSubject.

Section Compose.

Variable config : Config.
(** [alot.message.encode_header] *)
Variable encode_header : string -> string -> string.
(** [email.Utils.parseaddr] *)
Variable parseaddr : string -> string * string.
(** [ui.accountman.get_account_by_address] *)
Variable get_account_by_address : string -> option Account.

Definition set_if (cond : bool) (name value : string) (msg : Message) : Message :=
  if cond then msg_set name (encode_header name value) msg else msg.

Definition ComposeCommand_init (mail : option Message)
  (headers : list (string * string)) (sender subject : string)
  (to cc bcc : list string) : ComposeCommand :=
  let m0 :=
    match mail with
    | None | Some [] => new_multipart
    | Some m => m
    end in
  let m1 := fold_left (fun m kv => msg_set (fst kv) (encode_header (fst kv) (snd kv)) m)
                      headers m0 in
  let m2 := set_if (negb (bool_decide (sender = ""))) "From" sender m1 in
  let m3 := set_if (negb (bool_decide (subject = ""))) "Subject" subject m2 in
  let m4 := set_if (negb (bool_decide (to = []))) "To" (join "," to) m3 in
  let m5 := set_if (negb (bool_decide (cc = []))) "Cc" (join "," cc) m4 in
  let m6 := set_if (negb (bool_decide (bcc = []))) "Bcc" (join "," bcc) m5 in
  mkCompose m6.

(** Line 429: the envelope is handed to [EnvelopeEditCommand], which is
    what eventually opens a buffer for it. *)
Definition compose_envelope (self : ComposeCommand) (ui : UI)
  : Step (ComposePC * ComposeCommand) :=
  Finish (Done (emit (EvEnvelopeEdit (mail self)) ui)).

(** Lines 421 to 427. *)
Definition compose_subject (self : ComposeCommand) (ui : UI)
  : Step (ComposePC * ComposeCommand) :=
  if ask_subject config && negb (msg_contains "Subject" (mail self))
  then Yield (ReqPrompt "Subject>" NoCompleter 0) (AtSubject, self) ui
  else compose_envelope self ui.

(** Lines 405 to 420. *)
Definition compose_to (self : ComposeCommand) (ui : UI)
  : Step (ComposePC * ComposeCommand) :=
  if negb (msg_contains "To" (mail self)) then
    let addr := snd (parseaddr (default "None" (msg_get "From" (mail self)))) in
    let a := get_account_by_address addr in
    let allbooks := negb (complete_matching_abook_only config) in
    let ui1 := emit (EvLogDebugBool allbooks) ui in
    let ui2 := emit (EvLogDebugBooks [a] allbooks) ui1 in
    Yield (ReqPrompt "To>" (ContactsCompleter [a] allbooks) 0) (AtTo, self) ui2
  else compose_subject self ui.

Definition from_header (a : Account) : string :=
  realname a +:+ " <" +:+ address a +:+ ">".

Definition valid_address (accounts : list Account) (answer : Answer) : bool :=
  match answer with
  | None => true
  | Some s => bool_decide (s ∈ address <$> accounts)
  end.

Definition ComposeCommand_apply (self : ComposeCommand) (ui : UI)
  : Step (ComposePC * ComposeCommand) :=
  if negb (msg_contains "From" (mail self)) then
    match accounts ui with
    | [] => Finish (Done (notify "no accounts set" ui))
    | [a] => compose_to (mkCompose (msg_set "From" (from_header a) (mail self))) ui
    | accs =>
        Yield (ReqPrompt "From>" (AccountCompleter accs) 1) (AtFrom accs, self) ui
    end
  else compose_to self ui.

Definition ComposeCommand_resume (st : ComposePC * ComposeCommand)
  (answer : Answer) (ui : UI) : Step (ComposePC * ComposeCommand) :=
  let self := snd st in
  match fst st with
  | AtFrom accs =>
      if negb (valid_address accs answer) then
        Yield (ReqPrompt "From>" (AccountCompleter accs) 0) (AtFrom accs, self)
              (notify no_account_message ui)
      else
        match answer with
        | None | Some "" => Finish (Done (notify "canceled" ui))
        | Some fromaddress =>
            match get_account_by_address fromaddress with
            | None => Finish (Failed AttributeError ui)
            | Some a =>
                compose_to (mkCompose (msg_set "From" (from_header a) (mail self))) ui
            end
        end
  | AtTo =>
      match answer with
      | None => Finish (Done (notify "canceled" ui))
      | Some to =>
          compose_subject (mkCompose (msg_set "To" (encode_header "to" to) (mail self))) ui
      end
  | AtSubject =>
      match answer with
      | None => Finish (Done (notify "canceled" ui))
      | Some subject =>
          compose_envelope
            (mkCompose (msg_set "Subject" (encode_header "subject" subject) (mail self))) ui
      end
  end.

Definition ComposeCommand_run (self : ComposeCommand) (answers : list Answer)
  (ui : UI) : Step (ComposePC * ComposeCommand) :=
  drive ComposeCommand_resume answers (ComposeCommand_apply self ui).

End Compose.

(** ** The commands this module registers *)

Inductive CommandClass : Type :=
  | ExitCommandC | SearchCommandC | PromptCommandC | RefreshCommandC
  | ExternalCommandC | EditCommandC | PythonShellCommandC
  | BufferCloseCommandC | BufferFocusCommandC | OpenBufferlistCommandC
  | TagListCommandC | FlushCommandC | HelpCommandC | ComposeCommandC
  | SendKeypressCommandC.

(** The values of constructor parameters. *)
Inductive Value : Type :=
  | VNone
  | VBool (b : bool)
  | VInt (z : Z)
  | VStr (s : string)
  | VStrs (l : list string).

(** One [@registerCommand(mode, name, forced)] line. *)
Record Registration : Type := mkReg {
  reg_mode : string;
  reg_name : string;
  reg_class : CommandClass;
  reg_forced : gmap string Value
}.

Definition MODE : string := "global".

(** The decorators of the file, in the order they run: class by class, and
    for one class from the decorator next to it upwards. *)
Definition registrations : list Registration :=
  [ mkReg MODE "exit" ExitCommandC ∅;
    mkReg MODE "search" SearchCommandC ∅;
    mkReg MODE "prompt" PromptCommandC ∅;
    mkReg MODE "refresh" RefreshCommandC ∅;
    mkReg MODE "shellescape" ExternalCommandC ∅;
    mkReg MODE "edit" EditCommandC ∅;
    mkReg MODE "pyshell" PythonShellCommandC ∅;
    mkReg "bufferlist" "closefocussed" BufferCloseCommandC {[ "focussed" := VBool true ]};
    mkReg MODE "bclose" BufferCloseCommandC ∅;
    mkReg "bufferlist" "openfocussed" BufferFocusCommandC ∅;
    mkReg MODE "bnext" BufferFocusCommandC {[ "offset" := VInt 1 ]};
    mkReg MODE "bprevious" BufferFocusCommandC {[ "offset" := VInt (-1) ]};
    mkReg MODE "bufferlist" OpenBufferlistCommandC ∅;
    mkReg MODE "taglist" TagListCommandC ∅;
    mkReg MODE "flush" FlushCommandC ∅;
    mkReg MODE "help" HelpCommandC ∅;
    mkReg MODE "compose" ComposeCommandC ∅;
    mkReg MODE "select" SendKeypressCommandC {[ "key" := VStr "select" ]};
    mkReg MODE "cancel" SendKeypressCommandC {[ "key" := VStr "cancel" ]};
    mkReg MODE "move" SendKeypressCommandC ∅ ].

(** Modelled from the spec: [registerCommand] of alot/commands/__init__.py,
    the command registry "maps (mode, command-name) -> command descriptor";
    for one (mode, name) the last registration wins. *)
Definition register (r : Registration)
  (table : gmap (string * string) Registration)
  : gmap (string * string) Registration :=
  <[ (reg_mode r, reg_name r) := r ]> table.

Definition registry : gmap (string * string) Registration :=
  fold_left (fun table r => register r table) registrations ∅.

(** Modelled from the spec: the registry's [lookup(mode, name)], "search the
    given mode first, then the global fallback mode". *)
Definition lookup_command (mode name : string) : option Registration :=
  match registry !! (mode, name) with
  | Some r => Some r
  | None => registry !! (MODE, name)
  end.

Section Resolver.

(** The parse of the raw tokens against the argument schema of a command:
    the parameters the user supplied, or [None] for a parse error. *)
Variable parse_args : Registration -> list string -> option (gmap string Value).

(** Modelled from the spec: the argument resolver of
    alot/commands/__init__.py, "(1) apply forced overrides from the
    descriptor (never user-overridable), (2) parse raw tokens against the
    schema, producing user-supplied values": a forced parameter takes
    precedence over a user-supplied one of the same name. *)
Definition resolve (r : Registration) (tokens : list string)
  : option (gmap string Value) :=
  user ← parse_args r tokens;
  Some (reg_forced r ∪ user).

(** Modelled from the spec: from a mode and the words of an input line to
    the class to instantiate and its constructor parameters. *)
Definition commandfactory (mode name : string) (tokens : list string)
  : option (CommandClass * gmap string Value) :=
  r ← lookup_command mode name;
  parms ← resolve r tokens;
  Some (reg_class r, parms).

End Resolver.

(** [BufferFocusCommand.__init__(buffer=None, offset=0, **kwargs)] called
    with parameters that came from an input line.  The constructor stores
    whatever [offset] it is given; [apply] only tests its truth value and
    adds it to an index, so a boolean counts as 0 or 1 and [None], the
    empty string and the empty list behave as 0.  A non-empty string or
    list is stored as well, but [idx + self.offset] then raises in
    [apply]: such an offset has no place in [bf_offset], and [None] stands
    for that command.  A buffer object cannot be written on an input
    line. *)
Definition BufferFocusCommand_init (parms : gmap string Value)
  : option BufferFocusCommand :=
  match parms !! "offset" with
  | None => Some (mkBufferFocus None 0)
  | Some (VInt z) => Some (mkBufferFocus None z)
  | Some (VBool b) => Some (mkBufferFocus None (if b then 1 else 0))
  | Some VNone => Some (mkBufferFocus None 0)
  | Some (VStr "") => Some (mkBufferFocus None 0)
  | Some (VStrs []) => Some (mkBufferFocus None 0)
  | Some (VStr _) => None
  | Some (VStrs _) => None
  end.

(** ** [TagListCommand], [RefreshCommand] and [EditCommand] *)

Record TagListCommand : Type := mkTagList {
  tl_filtfun : option nat
}.

Section TagList.

(** [ui.dbman.get_all_tags()] *)
Variable get_all_tags : UI -> list string.

(** The buffer is appended to [ui.buffers] by hand and then focused;
    [buf.rebuild()] redraws the widgets of the new buffer, which are not
    part of this model. *)
Definition TagListCommand_apply (self : TagListCommand) (ui : UI) : Outcome :=
  let tags := get_all_tags ui in
  let buf := mkBuffer (fresh_ident ui) (TagListBuffer tags (tl_filtfun self)) in
  let ui1 := set_buffers (buffers ui ++ [buf]) ui in
  Done (buffer_focus buf ui1).

End TagList.

(** [ui.current_buffer.rebuild()] redraws the widgets of the focused
    buffer; without a focused buffer the attribute access fails. *)
Definition RefreshCommand_apply (ui : UI) : Outcome :=
  match current_buffer ui with
  | None => Failed AttributeError ui
  | Some _ => Done (update ui)
  end.

(** [EditCommand.__init__(path, spawn=None, **kwargs)]; the keyword
    arguments passed on to [ExternalCommand.__init__] are [refocus] and
    [on_success]. *)
Definition EditCommand_init (config : Config) (path : option string)
  (spawn : option bool) (refocus : bool) (on_success : option (UI -> UI))
  : ExternalCommand :=
  let spawn' :=
    match spawn with
    | Some b => b
    | None => spawn_editor config
    end in
  mkExternal (editor_cmd config) path spawn' refocus spawn' on_success.

(** The interface as a suspended or finished generator left it. *)
Definition step_ui {S : Type} (st : Step S) : UI :=
  match st with
  | Yield _ _ ui => ui
  | Finish o => final_ui o
  end.

(** ** The bindings table of [HelpCommand] *)

(** The line widgets of the help box: a heading, or a key in a column of
    fixed width followed by the command bound to it. *)
Inductive HelpLine : Type :=
  | HelpHeading (text : string)
  | HelpBinding (keycolumnwidth : nat) (key command : string).

Definition newline : string := String (ascii_of_nat 10) EmptyString.

(** [len(max(keys, key=len))]; [max] raises [ValueError] on an empty
    sequence. *)
Definition maxkeylength (keys : list string) : result nat :=
  match keys with
  | [] => Raise ValueError
  | _ => Ok (foldr Nat.max O (String.length <$> keys))
  end.

(** Lines 305 to 327 of [HelpCommand.apply], for the dictionaries
    [modemaps] and [globalmaps] of lines 302 and 303; the items of a
    dictionary come in an order of its own. *)
Definition HelpCommand_linewidgets (mode : string)
  (modemaps globalmaps : gmap string string) : result (list HelpLine) :=
  len <-! maxkeylength ((map_to_list modemaps).*1 ++ (map_to_list globalmaps).*1) ;
  let keycolumnwidth := (len + 2)%nat in
  let line := fun kv : string * string => HelpBinding keycolumnwidth (fst kv) (snd kv) in
  Ok ([HelpHeading (newline +:+ mode +:+ "-mode specific maps")]
      ++ (line <$> map_to_list modemaps)
      ++ [HelpHeading (newline +:+ "global maps")]
      ++ (line <$> filter (fun kv => modemaps !! fst kv = None) (map_to_list globalmaps))).

(** * Statements and sample states *)

(** What the claim about focus cycling asks of one run of the command. *)
Definition focus_moves_by_offset (gsb : Buffer -> result Buffer)
  (self : BufferFocusCommand) (ui : UI) : Prop :=
  forall cur i,
    current_buffer ui = Some cur ->
    index_of cur (buffers ui) = Some i ->
    exists b,
      buffers ui !! Z.to_nat ((Z.of_nat i + bf_offset self)
                                mod Z.of_nat (length (buffers ui))) = Some b /\
      BufferFocusCommand_apply gsb self ui = Done (set_current (Some b) ui).

(** Sample states: two search buffers and one buffer list. *)
Definition sb_foo : Buffer := mkBuffer 0 (SearchBuffer "foo").
Definition sb_all : Buffer := mkBuffer 1 (SearchBuffer "*").
Definition bl_one : Buffer := mkBuffer 2 (BufferlistBuffer None).

Definition ui_of (bufs : list Buffer) (cur : option Buffer) : UI :=
  mkUI bufs cur [] [] [] O [].

Definition ui_empty : UI := ui_of [] None.
Definition ui_two : UI := ui_of [sb_foo; sb_all] (Some sb_foo).
Definition ui_three : UI := ui_of [sb_foo; sb_all; bl_one] (Some bl_one).

Definition no_selection (b : Buffer) : result Buffer := Raise AttributeError.

(** What the claim about the empty stack asks: the command returns, and
    the user has been told something. *)
Definition rejected_with_notification (ui : UI) (o : Outcome) : Prop :=
  exists ui', o = Done ui' /\ notifications ui' <> notifications ui.

Definition is_bufferlist (b : Buffer) : Prop := type_of_body (body b) = TBufferlist.

(** What the claim about search buffers asks of one run of the command:
    if a search buffer for [q] is open, the run ends with that stack and
    with the focus on such a buffer. *)
Definition search_refocuses (q : string) (answers : list Answer) (ui : UI) : Prop :=
  (exists sb, sb ∈ buffers ui /\ querystring_of sb = Some q) ->
  exists sb,
    sb ∈ buffers ui /\ querystring_of sb = Some q /\
    SearchCommand_run (mkSearch q) answers ui = Finish (Done (set_current (Some sb) ui)).

(** The question asked before a search for all threads, when it is asked,
    is answered, and not with "no". *)
Definition confirmed_if_asked (q : string) (answers : list Answer) (ui : UI) : Prop :=
  q = "*" -> is_Some (current_buffer ui) ->
  exists a rest, answers = a :: rest /\ a <> Some "no".

(** The number of open buffers with querystring [q]. *)
Definition count_query (q : string) (ui : UI) : nat :=
  length (filter (fun b => querystring_of b = Some q) (buffers ui)).

(** What one locked attempt of the flush command leaves behind. *)
Definition retry_events (timeout : Z) : list Event :=
  [EvAlarm timeout FlushRetry; EvNotify (locked_message timeout); EvUpdate].

(** A sample configuration. *)
Definition config_sample : Config :=
  mkConfig false false "vim" "xterm -e" 5 true false.

(** A storage collaborator that is locked twice. *)
Definition ui_locked_twice : UI :=
  mkUI [sb_foo] (Some sb_foo) [] [] [FlushLocked; FlushLocked; FlushDone] O [].

(** The call of [self.on_success], when it is callable. *)
Definition run_on_success (self : ExternalCommand) (ui : UI) : UI :=
  match on_success self with
  | Some f => f ui
  | None => ui
  end.

(** Sample collaborators of the external command. *)
Definition quote_sample (s : string) : string := "'" +:+ s +:+ "'".
Definition split_sample (s : string) : result (list string) := Ok [s].
Definition call_sample (rc : Z) (argv : list string) : result Z := Ok rc.

Definition external_sample : ExternalCommand :=
  mkExternal "less {} -R" (Some "a b") true true false (Some (notify "done")).

(** Sample collaborators of the compose command. *)
Definition alice : Account := mkAccount "Alice" "alice@example.org".
Definition bob : Account := mkAccount "Bob" "bob@example.org".

Definition encode_sample (key value : string) : string := value.
Definition parseaddr_sample (s : string) : string * string := ("", s).
Definition lookup_sample (addr : string) : option Account :=
  find (fun a => bool_decide (address a = addr)) [alice; bob].

Definition ui_two_accounts : UI :=
  mkUI [sb_foo] (Some sb_foo) [] [] [] O [alice; bob].

(** A sample parse of input tokens: whatever is typed, the user is taken to
    have asked for offset 5. *)
Definition parse_sample (r : Registration) (tokens : list string)
  : option (gmap string Value) :=
  Some {[ "offset" := VInt 5 ]}.

(** [ui.current_buffer in ui.buffers] *)
Definition focus_on_stack (ui : UI) : bool :=
  match current_buffer ui with
  | Some c => buffer_in c (buffers ui)
  | None => false
  end.

(** The buffer a search command would construct. *)
Definition new_search_buffer (self : SearchCommand) (ui : UI) : Buffer :=
  mkBuffer (fresh_ident ui) (SearchBuffer (query self)).

(** [subprocess.call(shlex.split(cmd))] *)
Definition run_process (shlex_split : string -> result (list string))
  (subprocess_call : list string -> result Z) (cmd : string) : result Z :=
  rbind (shlex_split cmd) subprocess_call.

(** A process that cannot be started. *)
Definition call_missing (argv : list string) : result Z := Raise OSError.

(** [later] differs from [earlier] by events that were added only. *)
Definition only_events_added (earlier later : UI) : Prop :=
  buffers later = buffers earlier /\
  current_buffer later = current_buffer earlier /\
  alarms later = alarms earlier /\
  dbman later = dbman earlier /\
  flush_calls later = flush_calls earlier /\
  accounts later = accounts earlier /\
  events earlier `prefix_of` events later.

(** The buffers of the stack are distinct objects, and the focused
    buffer, if there is one, is one of them. *)
Definition stack_consistent (ui : UI) : Prop :=
  NoDup (ident <$> buffers ui) /\
  match current_buffer ui with
  | Some c => buffer_in c (buffers ui) = true
  | None => True
  end.

(** * Properties *)

(** ** Buffers and focus *)

Lemma same_buffer_refl (b : Buffer) : same_buffer b b = true.
Proof. unfold same_buffer. apply Nat.eqb_refl. Qed.

Lemma buffer_in_elem (b : Buffer) (bufs : list Buffer) :
  b ∈ bufs -> buffer_in b bufs = true.
Proof.
  intros Hin. unfold buffer_in. apply existsb_exists.
  exists b. split; [by apply list_elem_of_In | apply same_buffer_refl].
Qed.

Lemma buffer_focus_member (b : Buffer) (ui : UI) :
  b ∈ buffers ui -> buffer_focus b ui = set_current (Some b) ui.
Proof. intros Hin. unfold buffer_focus. by rewrite buffer_in_elem. Qed.

Lemma buffer_focus_buffers (b : Buffer) (ui : UI) :
  buffers (buffer_focus b ui) = buffers ui.
Proof. unfold buffer_focus. by destruct (buffer_in _ _). Qed.

Lemma buffer_open_eq (b : Buffer) (ui : UI) :
  buffer_open b ui = set_current (Some b) (set_buffers (buffers ui ++ [b]) ui).
Proof.
  unfold buffer_open. apply buffer_focus_member. simpl.
  apply elem_of_app. right. apply list_elem_of_singleton. done.
Qed.

Lemma index_of_Some (c : Buffer) (bufs : list Buffer) (i : nat) :
  index_of c bufs = Some i ->
  exists b, bufs !! i = Some b /\ ident b = ident c.
Proof.
  revert i. induction bufs as [|x rest IH]; intros i; simpl; [done|].
  destruct (same_buffer x c) eqn:Hx.
  - intros [= <-]. exists x. split; [done|].
    by apply Nat.eqb_eq in Hx.
  - destruct (index_of c rest) as [j|]; simpl; [|done].
    intros [= <-]. destruct (IH j eq_refl) as (b & Hb & Hid). by exists b.
Qed.

Lemma index_of_lookup (bufs : list Buffer) (j : nat) (b c : Buffer) :
  NoDup (ident <$> bufs) -> bufs !! j = Some b -> ident c = ident b ->
  index_of c bufs = Some j.
Proof.
  revert j. induction bufs as [|x rest IH]; intros j Hnd Hj Hid; [done|].
  simpl in Hnd. apply NoDup_cons in Hnd as [Hx Hnd].
  destruct j as [|j]; simpl in *.
  - injection Hj as ->. unfold same_buffer. rewrite Hid, Nat.eqb_refl. done.
  - destruct (same_buffer x c) eqn:Hxc.
    + exfalso. apply Hx. apply Nat.eqb_eq in Hxc. rewrite Hxc, Hid.
      apply list_elem_of_fmap. exists b. split; [done|].
      by eapply list_elem_of_lookup_2.
    + by rewrite (IH j Hnd Hj Hid).
Qed.

Lemma BufferFocusCommand_step gsb self ui :
  bf_offset self <> 0 -> focus_moves_by_offset gsb self ui.
Proof.
  intros Hk cur i Hcur Hidx.
  destruct (index_of_Some _ _ _ Hidx) as (b0 & Hb0 & _).
  apply lookup_lt_Some in Hb0.
  set (n := Z.of_nat (length (buffers ui))).
  assert (Hn : 0 < n) by (unfold n; lia).
  assert (Hm : 0 <= (Z.of_nat i + bf_offset self) mod n < n)
    by (apply Z.mod_pos_bound; lia).
  destruct (lookup_lt_is_Some_2 (buffers ui)
              (Z.to_nat ((Z.of_nat i + bf_offset self) mod n))) as [b Hb].
  { unfold n in *. lia. }
  exists b. split; [exact Hb|].
  unfold BufferFocusCommand_apply.
  destruct (Z.eqb_spec (bf_offset self) 0) as [|_]; [done|]. simpl.
  rewrite Hcur, Hidx. fold n.
  destruct (Z.eqb_spec n 0) as [|_]; [lia|].
  rewrite Hb. f_equal. apply buffer_focus_member.
  by eapply list_elem_of_lookup_2.
Qed.

Lemma BufferFocusCommand_repeat_index gsb (buf : option Buffer) (k : Z) (m : nat) :
  k <> 0 ->
  forall ui cur i,
    NoDup (ident <$> buffers ui) ->
    current_buffer ui = Some cur ->
    index_of cur (buffers ui) = Some i ->
    exists ui' c',
      BufferFocusCommand_repeat gsb m (mkBufferFocus buf k) ui = Done ui' /\
      buffers ui' = buffers ui /\
      current_buffer ui' = Some c' /\
      index_of c' (buffers ui) =
        Some (Z.to_nat ((Z.of_nat i + Z.of_nat m * k)
                          mod Z.of_nat (length (buffers ui)))).
Proof.
  intros Hk. induction m as [|m IH]; intros ui cur i Hnd Hcur Hidx.
  - exists ui, cur. simpl. repeat split; try done.
    rewrite Hidx. f_equal.
    destruct (index_of_Some _ _ _ Hidx) as (b0 & Hb0 & _).
    apply lookup_lt_Some in Hb0.
    rewrite Z.add_0_r, Z.mod_small by lia. lia.
  - destruct (BufferFocusCommand_step gsb (mkBufferFocus buf k) ui Hk cur i Hcur Hidx)
      as (b & Hb & Happ).
    simpl in Hb.
    cbn [BufferFocusCommand_repeat]. rewrite Happ.
    assert (Hidx' : index_of b (buffers ui) =
      Some (Z.to_nat ((Z.of_nat i + k) mod Z.of_nat (length (buffers ui)))))
      by (eapply index_of_lookup; eauto).
    destruct (IH (set_current (Some b) ui) b _ Hnd eq_refl Hidx')
      as (ui' & c' & Hrep & Hbufs & Hc' & Hi').
    exists ui', c'. repeat split; try done.
    simpl in Hi'. rewrite Hi'. f_equal. f_equal.
    apply lookup_lt_Some in Hb.
    set (n := Z.of_nat (length (buffers ui))) in *.
    assert (0 < n) by (unfold n; lia).
    rewrite Z2Nat.id by (apply Z.mod_pos_bound; lia).
    rewrite Zplus_mod_idemp_l. f_equal. lia.
Qed.

(** C2 (amended): with a non-zero offset [k], the command moves the focus
    from index [i] to the buffer at index [(i + k) mod n] of a stack of
    length [n]; and when the [n] open buffers are distinct objects, [n] runs
    of the command with offset [+1] bring the focus back to the buffer it
    started from, leaving the stack as it was. *)
Theorem BufferFocusCommand_focus_cycle gsb (buf : option Buffer) (k : Z) (ui : UI) :
  k <> 0 ->
  focus_moves_by_offset gsb (mkBufferFocus buf k) ui /\
  (forall cur i,
      NoDup (ident <$> buffers ui) ->
      current_buffer ui = Some cur ->
      index_of cur (buffers ui) = Some i ->
      exists ui' c',
        BufferFocusCommand_repeat gsb (length (buffers ui)) (mkBufferFocus buf 1) ui
          = Done ui' /\
        buffers ui' = buffers ui /\
        current_buffer ui' = Some c' /\
        ident c' = ident cur).
Proof.
  intros Hk. split; [by apply BufferFocusCommand_step|].
  intros cur i Hnd Hcur Hidx.
  destruct (BufferFocusCommand_repeat_index gsb buf 1 (length (buffers ui))
              ltac:(lia) ui cur i Hnd Hcur Hidx) as (ui' & c' & Hrep & Hbufs & Hc' & Hi').
  destruct (index_of_Some _ _ _ Hidx) as (b & Hb & Hbid).
  assert (Hlt := lookup_lt_Some _ _ _ Hb).
  replace (Z.of_nat i + Z.of_nat (length (buffers ui)) * 1)
    with (Z.of_nat i + 1 * Z.of_nat (length (buffers ui))) in Hi' by lia.
  rewrite Z_mod_plus_full, Z.mod_small, Nat2Z.id in Hi' by lia.
  destruct (index_of_Some _ _ _ Hi') as (b' & Hb' & Hb'id).
  assert (b' = b) by congruence. subst b'.
  exists ui', c'. repeat split; try done. congruence.
Qed.

Lemma BufferFocusCommand_focus_cycle_witness :
  focus_moves_by_offset no_selection (mkBufferFocus None (-1)) ui_three /\
  exists ui',
    BufferFocusCommand_repeat no_selection 3 (mkBufferFocus None 1) ui_three = Done ui' /\
    current_buffer ui' = Some bl_one.
Proof.
  destruct (BufferFocusCommand_focus_cycle no_selection None (-1) ui_three ltac:(lia))
    as [Hstep _].
  split; [exact Hstep|].
  exists ui_three. split; reflexivity.
Defined.

(** C2 as stated fails for offset 0: the command then focuses the buffer it
    was given, whatever the index of the current one. *)
Lemma BufferFocusCommand_offset_zero_counterexample :
  ~ focus_moves_by_offset no_selection (mkBufferFocus (Some sb_all) 0) ui_two.
Proof.
  intros H. destruct (H sb_foo O eq_refl eq_refl) as (b & Hb & Happ).
  vm_compute in Hb. injection Hb as <-.
  vm_compute in Happ. discriminate Happ.
Qed.

(** ** The empty stack *)

(** C8 (amended): there is no guard; with a non-zero offset and an empty
    buffer stack, [list.index] raises [ValueError] out of [apply], and the
    interface is left as it was, without any notification. *)
Theorem BufferFocusCommand_empty_stack gsb (self : BufferFocusCommand) (ui : UI) :
  bf_offset self <> 0 ->
  buffers ui = [] ->
  BufferFocusCommand_apply gsb self ui = Failed ValueError ui.
Proof.
  intros Hk Hnil. unfold BufferFocusCommand_apply.
  destruct (Z.eqb_spec (bf_offset self) 0) as [|_]; [done|]. simpl.
  rewrite Hnil. by destruct (current_buffer ui).
Qed.

Lemma BufferFocusCommand_empty_stack_witness :
  BufferFocusCommand_apply no_selection (mkBufferFocus None 1) ui_empty
    = Failed ValueError ui_empty.
Proof.
  apply (BufferFocusCommand_empty_stack no_selection (mkBufferFocus None 1) ui_empty).
  - simpl. lia.
  - reflexivity.
Defined.

(** C8 as stated fails: on the empty stack the command does not return. *)
Lemma BufferFocusCommand_empty_stack_counterexample :
  ~ rejected_with_notification ui_empty
      (BufferFocusCommand_apply no_selection (mkBufferFocus None 1) ui_empty).
Proof. intros (ui' & Hdone & _). vm_compute in Hdone. discriminate Hdone. Qed.

(** ** The buffer list *)

Lemma filter_first {A} (P : A -> Prop) `{!forall x, Decision (P x)}
  (pre post : list A) (x : A) :
  Forall (fun y => ~ P y) pre -> P x ->
  filter P (pre ++ x :: post) = x :: filter P post.
Proof.
  intros Hpre Hx. rewrite filter_app, filter_cons_True by done.
  replace (filter P pre) with (@nil A); [done|].
  symmetry. induction Hpre as [|y l Hy _ IH]; [done|].
  by rewrite filter_cons_False.
Qed.

Lemma filter_none {A} (P : A -> Prop) `{!forall x, Decision (P x)} (l : list A) :
  Forall (fun y => ~ P y) l -> filter P l = [].
Proof.
  induction 1 as [|y l Hy _ IH]; [done|]. by rewrite filter_cons_False.
Qed.

(** C9: when a buffer list is already open, the command focuses the first
    one in stack order and the stack is unchanged; when none is open, it
    appends one new buffer list and focuses it. *)
Theorem OpenBufferlistCommand_reuses (self : OpenBufferlistCommand) (ui : UI) :
  (forall pre first post,
      buffers ui = pre ++ first :: post ->
      Forall (fun b => ~ is_bufferlist b) pre ->
      is_bufferlist first ->
      OpenBufferlistCommand_apply self ui = Done (set_current (Some first) ui)) /\
  (Forall (fun b => ~ is_bufferlist b) (buffers ui) ->
      exists b,
        body b = BufferlistBuffer (ob_filtfun self) /\
        buffer_in b (buffers ui) = false /\
        OpenBufferlistCommand_apply self ui =
          Done (set_current (Some b) (set_buffers (buffers ui ++ [b]) ui))) /\
  (buffers (final_ui (OpenBufferlistCommand_apply self ui)) <> buffers ui ->
      Forall (fun b => ~ is_bufferlist b) (buffers ui)).
Proof.
  unfold OpenBufferlistCommand_apply, get_buffers_of_type. repeat split.
  - intros pre first post Hb Hpre Hfirst. rewrite Hb.
    rewrite (filter_first is_bufferlist) by done.
    f_equal. apply buffer_focus_member.
    rewrite Hb. apply elem_of_app. right. by left.
  - intros Hnone. rewrite (filter_none is_bufferlist) by done.
    exists (mkBuffer (fresh_ident ui) (BufferlistBuffer (ob_filtfun self))).
    split; [reflexivity|]. split; [|by rewrite buffer_open_eq].
    simpl. unfold buffer_in, fresh_ident.
    apply not_true_iff_false. intros Hin. apply existsb_exists in Hin.
    destruct Hin as (x & Hx & Hsame). apply Nat.eqb_eq in Hsame. simpl in Hsame.
    assert (Hle : (ident x <= foldr Nat.max O
                     (ident <$> (buffers ui ++ option_list (current_buffer ui))))%nat).
    { apply list_elem_of_In in Hx.
      assert (Hx' : ident x ∈ ident <$> (buffers ui ++ option_list (current_buffer ui))).
      { apply list_elem_of_fmap. exists x. split; [done|]. apply elem_of_app. by left. }
      revert Hx'. generalize (ident <$> (buffers ui ++ option_list (current_buffer ui))).
      intros l Hl. induction Hl as [y l|y z l _ IH]; simpl; lia. }
    lia.
  - intros Hchanged. apply Forall_forall. intros b Hb Hbl.
    apply Hchanged.
    destruct (filter _ (buffers ui)) as [|first rest] eqn:Hf.
    + exfalso. assert (b ∈ filter (fun b => type_of_body (body b) = TBufferlist) (buffers ui))
        by (apply list_elem_of_filter; done).
      rewrite Hf in H. by apply elem_of_nil in H.
    + simpl. apply buffer_focus_buffers.
Qed.

(** ** Search buffers *)

Lemma drive_finish {S : Type} (resume : S -> Answer -> UI -> Step S)
  (answers : list Answer) (o : Outcome) :
  drive resume answers (Finish o) = Finish o.
Proof. by destruct answers. Qed.

(** C10: with an empty query string the command only notifies: it asks
    nothing, and leaves the buffer stack and the focus as they were. *)
Theorem SearchCommand_empty_query (answers : list Answer) (ui : UI) :
  SearchCommand_init [] = mkSearch "" /\
  SearchCommand_init [""] = mkSearch "" /\
  SearchCommand_apply (mkSearch "") ui = Finish (Done (notify "empty query string" ui)) /\
  SearchCommand_run (mkSearch "") answers ui
    = Finish (Done (notify "empty query string" ui)) /\
  buffers (notify "empty query string" ui) = buffers ui /\
  current_buffer (notify "empty query string" ui) = current_buffer ui /\
  events (notify "empty query string" ui) = events ui ++ [EvNotify "empty query string"].
Proof.
  repeat split.
  unfold SearchCommand_run. simpl. apply drive_finish.
Qed.

Lemma fresh_ident_not_in (ui : UI) (body : BufferBody) :
  buffer_in (mkBuffer (fresh_ident ui) body) (buffers ui) = false.
Proof.
  unfold buffer_in, fresh_ident.
  apply not_true_iff_false. intros Hin. apply existsb_exists in Hin.
  destruct Hin as (x & Hx & Hsame). apply Nat.eqb_eq in Hsame. simpl in Hsame.
  assert (Hle : (ident x <= foldr Nat.max O
                   (ident <$> (buffers ui ++ option_list (current_buffer ui))))%nat).
  { apply list_elem_of_In in Hx.
    assert (Hx' : ident x ∈ ident <$> (buffers ui ++ option_list (current_buffer ui))).
    { apply list_elem_of_fmap. exists x. split; [done|]. apply elem_of_app. by left. }
    revert Hx'. generalize (ident <$> (buffers ui ++ option_list (current_buffer ui))).
    intros l Hl. induction Hl as [y l|y z l _ IH]; simpl; lia. }
  lia.
Qed.

Lemma to_be_focused_from (q : string) (l : list Buffer) (acc : option Buffer) :
  fold_left
    (fun acc sb => if bool_decide (querystring_of sb = Some q) then Some sb else acc)
    l acc
  = match last (filter (fun b => querystring_of b = Some q) l) with
    | Some sb => Some sb
    | None => acc
    end.
Proof.
  revert acc. induction l as [|x l IH]; intros acc; [done|].
  simpl. rewrite IH. rewrite filter_cons.
  case_bool_decide as Hx; destruct (decide _) as [Hx'|Hx']; try done.
  rewrite last_cons. by destruct (last _).
Qed.

Lemma to_be_focused_last (q : string) (ui : UI) :
  to_be_focused q (get_buffers_of_type TSearch ui)
  = last (filter (fun b => querystring_of b = Some q) (buffers ui)).
Proof.
  unfold to_be_focused, get_buffers_of_type. rewrite to_be_focused_from.
  replace (filter (fun b => querystring_of b = Some q)
             (filter (fun b => type_of_body (body b) = TSearch) (buffers ui)))
    with (filter (fun b => querystring_of b = Some q) (buffers ui)).
  { by destruct (last _). }
  induction (buffers ui) as [|x l IH]; [done|].
  rewrite !filter_cons.
  destruct (decide (querystring_of x = Some q)) as [Hq|Hq].
  - assert (Ht : type_of_body (body x) = TSearch).
    { unfold querystring_of in Hq. by destruct (body x). }
    destruct (decide _); [|done]. rewrite filter_cons.
    destruct (decide _); [|done]. by rewrite IH.
  - destruct (decide (type_of_body (body x) = TSearch)); [|done].
    rewrite filter_cons. by destruct (decide _).
Qed.

Lemma SearchCommand_open_existing (q : string) (ui : UI) :
  (exists sb, sb ∈ buffers ui /\ querystring_of sb = Some q) ->
  exists sb,
    sb ∈ buffers ui /\ querystring_of sb = Some q /\
    last (filter (fun b => querystring_of b = Some q) (buffers ui)) = Some sb /\
    SearchCommand_open (mkSearch q) ui = set_current (Some sb) ui.
Proof.
  intros (sb0 & Hin0 & Hq0). unfold SearchCommand_open. simpl.
  rewrite to_be_focused_last.
  destruct (last _) as [sb|] eqn:Hlast.
  - apply last_Some in Hlast as [l' Hl'].
    assert (Hsb : sb ∈ filter (fun b => querystring_of b = Some q) (buffers ui)).
    { rewrite Hl'. apply elem_of_app. right. by left. }
    apply list_elem_of_filter in Hsb as [Hq Hin].
    exists sb. repeat split; try done. by apply buffer_focus_member.
  - apply last_None in Hlast.
    assert (Hsb : sb0 ∈ filter (fun b => querystring_of b = Some q) (buffers ui))
      by (by apply list_elem_of_filter).
    rewrite Hlast in Hsb. by apply elem_of_nil in Hsb.
Qed.

Lemma SearchCommand_open_new (q : string) (ui : UI) :
  ~ (exists sb, sb ∈ buffers ui /\ querystring_of sb = Some q) ->
  SearchCommand_open (mkSearch q) ui =
    set_current (Some (mkBuffer (fresh_ident ui) (SearchBuffer q)))
      (set_buffers (buffers ui ++ [mkBuffer (fresh_ident ui) (SearchBuffer q)]) ui).
Proof.
  intros Hnone. unfold SearchCommand_open. simpl.
  rewrite to_be_focused_last.
  destruct (last _) as [sb|] eqn:Hlast; [|apply buffer_open_eq].
  exfalso. apply Hnone. exists sb.
  apply last_Some in Hlast as [l' Hl'].
  assert (Hsb : sb ∈ filter (fun b => querystring_of b = Some q) (buffers ui)).
  { rewrite Hl'. apply elem_of_app. right. by left. }
  apply list_elem_of_filter in Hsb as [Hq Hin]. done.
Qed.

Lemma SearchCommand_run_confirmed (q : string) (answers : list Answer) (ui : UI) :
  q <> "" -> confirmed_if_asked q answers ui ->
  SearchCommand_run (mkSearch q) answers ui
    = Finish (Done (SearchCommand_open (mkSearch q) ui)).
Proof.
  intros Hq Hconf. unfold SearchCommand_run, SearchCommand_apply. simpl.
  rewrite bool_decide_true by done.
  case_bool_decide as Hall; simpl; [|apply drive_finish].
  case_bool_decide as Hcur; simpl; [|apply drive_finish].
  destruct (Hconf Hall Hcur) as (a & rest & -> & Hno).
  simpl. unfold SearchCommand_resume.
  rewrite bool_decide_false by done. apply drive_finish.
Qed.

Lemma SearchCommand_open_cases (self : SearchCommand) (ui : UI) :
  (exists sb, sb ∈ buffers ui /\ querystring_of sb = Some (query self) /\
              SearchCommand_open self ui = set_current (Some sb) ui) \/
  (count_query (query self) ui = O /\
   SearchCommand_open self ui =
     set_current (Some (new_search_buffer self ui))
       (set_buffers (buffers ui ++ [new_search_buffer self ui]) ui)).
Proof.
  destruct self as [q]. simpl.
  destruct (filter (fun b => querystring_of b = Some q) (buffers ui))
    as [|x l] eqn:Hf.
  - right. split; [unfold count_query; by rewrite Hf|].
    apply SearchCommand_open_new. intros (sb & Hin & Hq).
    assert (Hsb : sb ∈ filter (fun b => querystring_of b = Some q) (buffers ui))
      by (by apply list_elem_of_filter).
    rewrite Hf in Hsb. by apply elem_of_nil in Hsb.
  - left.
    assert (Hx : x ∈ filter (fun b => querystring_of b = Some q) (buffers ui))
      by (rewrite Hf; by left).
    apply list_elem_of_filter in Hx as [Hq Hin].
    destruct (SearchCommand_open_existing q ui) as (sb & ? & ? & _ & ?); [by exists x|].
    by exists sb.
Qed.

Lemma SearchCommand_open_twice (q : string) (ui : UI) :
  SearchCommand_open (mkSearch q) (SearchCommand_open (mkSearch q) ui)
    = SearchCommand_open (mkSearch q) ui /\
  count_query q (SearchCommand_open (mkSearch q) ui)
    = Nat.max 1 (count_query q ui).
Proof.
  destruct (filter (fun b => querystring_of b = Some q) (buffers ui))
    as [|x l] eqn:Hf.
  - assert (Hnone : ~ (exists sb, sb ∈ buffers ui /\ querystring_of sb = Some q)).
    { intros (sb & Hin & Hq).
      assert (Hsb : sb ∈ filter (fun b => querystring_of b = Some q) (buffers ui))
        by (by apply list_elem_of_filter).
      rewrite Hf in Hsb. by apply elem_of_nil in Hsb. }
    rewrite (SearchCommand_open_new q ui Hnone).
    set (new := mkBuffer (fresh_ident ui) (SearchBuffer q)).
    set (ui1 := set_current (Some new) (set_buffers (buffers ui ++ [new]) ui)).
    assert (Hf1 : filter (fun b => querystring_of b = Some q) (buffers ui1) = [new]).
    { simpl. by rewrite filter_app, Hf, filter_cons_True. }
    split; [|unfold count_query; by rewrite Hf1, Hf].
    destruct (SearchCommand_open_existing q ui1) as (sb & _ & _ & Hlast & Hopen).
    { exists new. split; [|done]. simpl. apply elem_of_app. right. by left. }
    rewrite Hf1 in Hlast. injection Hlast as <-. by rewrite Hopen.
  - assert (Hx : x ∈ filter (fun b => querystring_of b = Some q) (buffers ui))
      by (rewrite Hf; by left).
    apply list_elem_of_filter in Hx as [Hq Hin].
    destruct (SearchCommand_open_existing q ui) as (sb & Hsb & Hsq & Hlast & Hopen);
      [by exists x|].
    rewrite Hopen. split; [|unfold count_query; simpl; rewrite Hf; simpl; lia].
    destruct (SearchCommand_open_existing q (set_current (Some sb) ui))
      as (sb' & _ & _ & Hlast' & Hopen'); [by exists sb|].
    simpl in Hlast'. rewrite Hopen'.
    assert (sb' = sb) as -> by congruence. done.
Qed.

(** C1 (amended): on a stack that holds a search buffer for the query
    [q], the command never opens a buffer, whatever [q] and the answers;
    when [q] is "*", a buffer is focused and the question is answered "no",
    the interface is left exactly as it was; for a non-empty [q] and
    without such a refusal it focuses the open search buffer for [q], the
    last one in stack order.  Hence, for a non-empty [q], a run that is
    not refused leaves one buffer for [q] when none was open and as many
    as there were otherwise, and a second run that is not refused changes
    nothing any more: on a stack without a buffer for [q], two runs leave
    exactly one. *)
Theorem SearchCommand_dedup (q : string) (answers : list Answer) (ui : UI) :
  ((exists sb, sb ∈ buffers ui /\ querystring_of sb = Some q) ->
   buffers (step_ui (SearchCommand_run (mkSearch q) answers ui)) = buffers ui) /\
  (q = "*" -> is_Some (current_buffer ui) ->
   forall rest,
     SearchCommand_run (mkSearch q) (Some "no" :: rest) ui = Finish (Done ui)) /\
  (q <> "" ->
   confirmed_if_asked q answers ui ->
   search_refocuses q answers ui /\
   (forall sb,
      last (filter (fun b => querystring_of b = Some q) (buffers ui)) = Some sb ->
      SearchCommand_run (mkSearch q) answers ui
        = Finish (Done (set_current (Some sb) ui))) /\
   exists ui1,
     SearchCommand_run (mkSearch q) answers ui = Finish (Done ui1) /\
     count_query q ui1 = Nat.max 1 (count_query q ui) /\
     (count_query q ui = O ->
      exists new, querystring_of new = Some q /\
        buffers ui1 = buffers ui ++ [new] /\ current_buffer ui1 = Some new) /\
     forall answers2,
       confirmed_if_asked q answers2 ui1 ->
       SearchCommand_run (mkSearch q) answers2 ui1 = Finish (Done ui1)).
Proof.
  split; [|split].
  - intros Hex.
    assert (Hopen : buffers (SearchCommand_open (mkSearch q) ui) = buffers ui).
    { destruct (SearchCommand_open_existing q ui Hex) as (sb & _ & _ & _ & ->). done. }
    unfold SearchCommand_run, SearchCommand_apply.
    case_bool_decide; [|by rewrite drive_finish].
    destruct (_ && _); [|by rewrite drive_finish].
    destruct answers as [|a rest]; [done|]. cbn [drive]. unfold SearchCommand_resume.
    case_bool_decide; by rewrite drive_finish.
  - intros -> Hcur rest. unfold SearchCommand_run, SearchCommand_apply. simpl.
    rewrite (bool_decide_true (is_Some _)) by done. simpl. apply drive_finish.
  - intros Hq Hconf. split; [|split].
    + intros Hex. rewrite (SearchCommand_run_confirmed q answers ui Hq Hconf).
      destruct (SearchCommand_open_existing q ui Hex) as (sb & Hin & Hqs & _ & Hopen).
      exists sb. by rewrite Hopen.
    + intros sb Hlast. rewrite (SearchCommand_run_confirmed q answers ui Hq Hconf).
      destruct (SearchCommand_open_existing q ui) as (sb' & _ & _ & Hlast' & Hopen).
      { exists sb. apply last_Some in Hlast as [l' Hl'].
        assert (Hsb : sb ∈ filter (fun b => querystring_of b = Some q) (buffers ui)).
        { rewrite Hl'. apply elem_of_app. right. by left. }
        apply list_elem_of_filter in Hsb as [? ?]. done. }
      rewrite Hopen. congruence.
    + exists (SearchCommand_open (mkSearch q) ui).
      destruct (SearchCommand_open_twice q ui) as [Htwice Hcount].
      split; [by apply SearchCommand_run_confirmed|]. split; [exact Hcount|]. split.
      * intros Hzero.
        destruct (SearchCommand_open_cases (mkSearch q) ui)
          as [(sb & Hin & Hsq & _)|[_ Hnew]].
        { exfalso. unfold count_query in Hzero. apply length_zero_iff_nil in Hzero.
          assert (Hsb : sb ∈ filter (fun b => querystring_of b = Some q) (buffers ui))
            by (by apply list_elem_of_filter).
          rewrite Hzero in Hsb. by apply elem_of_nil in Hsb. }
        exists (new_search_buffer (mkSearch q) ui). rewrite Hnew. done.
      * intros answers2 Hconf2.
        rewrite (SearchCommand_run_confirmed q answers2 _ Hq Hconf2).
        by rewrite Htwice.
Qed.

Lemma SearchCommand_dedup_witness :
  search_refocuses "*" [Some "yes"] ui_two /\
  exists ui1,
    SearchCommand_run (mkSearch "bar") [] ui_two = Finish (Done ui1) /\
    count_query "bar" ui1 = 1%nat /\
    SearchCommand_run (mkSearch "bar") [] ui1 = Finish (Done ui1).
Proof.
  split.
  - destruct (SearchCommand_dedup "*" [Some "yes"] ui_two) as (_ & _ & H).
    apply H; [discriminate|].
    intros _ _. exists (Some "yes"), []. split; [reflexivity | discriminate].
  - destruct (SearchCommand_dedup "bar" [] ui_two) as (_ & _ & H).
    destruct H as (_ & _ & ui1 & Hrun & Hcount & _ & Hagain);
      [discriminate | intros Hbar; discriminate Hbar |].
    exists ui1. split; [exact Hrun|]. split; [exact Hcount|].
    apply Hagain. intros Hbar. discriminate Hbar.
Defined.

(** C1 as stated fails for the query "*": when the user answers "no" to
    the question, the open search buffer for "*" is not focused. *)
Lemma SearchCommand_declined_counterexample :
  ~ search_refocuses "*" [Some "no"] ui_two.
Proof.
  intros H. destruct H as (sb & _ & Hq & Hrun).
  - exists sb_all. split; [|reflexivity].
    unfold ui_two, ui_of. simpl. right. left.
  - vm_compute in Hrun. injection Hrun as <-. discriminate Hq.
Qed.

(** ** Flushing *)

Lemma mainloop_retry config (fuel : nat) (ui : UI) (delay : Z) :
  alarms ui = [(delay, FlushRetry)] ->
  mainloop config (S fuel) ui =
    flush_session config fuel
      (mkUI (buffers ui) (current_buffer ui) (events ui) [] (dbman ui)
            (flush_calls ui) (accounts ui)).
Proof.
  intros Hal. unfold flush_session. simpl. unfold pop_alarm. rewrite Hal. simpl.
  by destruct (FlushCommand_apply _ _).
Qed.

Lemma flush_session_locked config (n : nat) :
  forall fuel ui rest,
    dbman ui = replicate n FlushLocked ++ FlushDone :: rest ->
    alarms ui = [] ->
    (n <= fuel)%nat ->
    flush_session config fuel ui =
      Some (Done (mkUI (buffers ui) (current_buffer ui)
                       (events ui ++
                        concat (replicate n (retry_events (flush_retry_timeout config))))
                       [] rest (flush_calls ui + n + 1) (accounts ui))).
Proof.
  induction n as [|n IH]; intros fuel ui rest Hdb Hal Hfuel.
  - destruct ui as [bs cur evs als db calls accs]. simpl in *. subst.
    unfold flush_session, FlushCommand_apply, dbman_flush. simpl.
    rewrite app_nil_r, Nat.add_0_r, Nat.add_1_r.
    by destruct fuel.
  - destruct fuel as [|fuel]; [lia|].
    destruct ui as [bs cur evs als db calls accs]. simpl in *. subst.
    unfold flush_session at 1. unfold FlushCommand_apply, dbman_flush.
    cbn -[mainloop flush_session].
    erewrite mainloop_retry by reflexivity. cbn -[flush_session].
    erewrite IH; [|reflexivity|reflexivity|lia]. simpl.
    do 3 f_equal; [|lia].
    by rewrite <- !app_assoc.
Qed.

(** C3: when the storage collaborator is locked exactly twice and then
    succeeds, the flush command followed by the main loop ends normally
    after exactly three calls of [flush()], with no alarm left; each of the
    two locked attempts scheduled [FlushRetry] after [flush_retry_timeout]
    seconds and then notified the user; and the retry callback is the
    [apply] of the command itself, so the lock is tested again each time. *)
Theorem FlushCommand_retries config (fuel : nat) (ui : UI) (rest : list FlushOutcome) :
  dbman ui = FlushLocked :: FlushLocked :: FlushDone :: rest ->
  alarms ui = [] ->
  (2 <= fuel)%nat ->
  (forall ui0, run_callback config FlushRetry ui0 = FlushCommand_apply config ui0) /\
  exists ui',
    flush_session config fuel ui = Some (Done ui') /\
    flush_calls ui' = (flush_calls ui + 3)%nat /\
    alarms ui' = [] /\
    dbman ui' = rest /\
    events ui' = events ui ++ retry_events (flush_retry_timeout config)
                           ++ retry_events (flush_retry_timeout config) /\
    notifications ui' = notifications ui
                        ++ [locked_message (flush_retry_timeout config);
                            locked_message (flush_retry_timeout config)] /\
    buffers ui' = buffers ui /\
    current_buffer ui' = current_buffer ui.
Proof.
  intros Hdb Hal Hfuel. split; [done|].
  eexists. split.
  { apply (flush_session_locked config 2 fuel ui rest); done. }
  simpl. repeat split; try done; try lia.
  unfold notifications. simpl. by rewrite omap_app.
Qed.

Lemma FlushCommand_retries_witness :
  exists ui',
    flush_session config_sample 2 ui_locked_twice = Some (Done ui') /\
    flush_calls ui' = 3%nat /\
    notifications ui' = ["index locked, will try again in 5 secs";
                         "index locked, will try again in 5 secs"].
Proof.
  destruct (FlushCommand_retries config_sample 2 ui_locked_twice [])
    as (_ & ui' & Hrun & Hcalls & _ & _ & _ & Hnote & _).
  - reflexivity.
  - reflexivity.
  - lia.
  - exists ui'. repeat split; [exact Hrun | exact Hcalls | exact Hnote].
Defined.

(** ** Composing *)

Lemma compose_from_cancel config encode_header parseaddr lookup
  (accs : list Account) (self : ComposeCommand) (bad : list Answer) :
  Forall (fun a => valid_address accs a = false) bad ->
  forall (r : Request) (ui : UI) (rest : list Answer),
    drive (ComposeCommand_resume config encode_header parseaddr lookup)
          (bad ++ None :: rest) (Yield r (AtFrom accs, self) ui)
    = Finish (Done (mkUI (buffers ui) (current_buffer ui)
                         (events ui
                          ++ replicate (length bad) (EvNotify no_account_message)
                          ++ [EvNotify "canceled"])
                         (alarms ui) (dbman ui) (flush_calls ui) (accounts ui))).
Proof.
  induction 1 as [|a bad Ha _ IH]; intros r ui rest.
  - simpl. apply drive_finish.
  - cbn [app drive]. unfold ComposeCommand_resume at 2. cbn [fst snd].
    rewrite Ha. cbn [negb]. rewrite IH. simpl.
    by rewrite <- app_assoc.
Qed.

(** C4: with no From header and more than one account, cancelling the
    From prompt, at once or after any number of answers that name no
    account, ends the command with the notification "canceled"; nothing
    else happened than notifications: the buffer stack and the focus are
    untouched and the envelope was never handed on. *)
Theorem ComposeCommand_cancel_from config encode_header parseaddr lookup
  (self : ComposeCommand) (ui : UI) (a1 a2 : Account) (accs : list Account)
  (bad rest : list Answer) :
  msg_contains "From" (mail self) = false ->
  accounts ui = a1 :: a2 :: accs ->
  Forall (fun a => valid_address (a1 :: a2 :: accs) a = false) bad ->
  exists ui',
    ComposeCommand_run config encode_header parseaddr lookup self
                       (bad ++ None :: rest) ui = Finish (Done ui') /\
    buffers ui' = buffers ui /\
    current_buffer ui' = current_buffer ui /\
    events ui' = events ui ++ replicate (length bad) (EvNotify no_account_message)
                           ++ [EvNotify "canceled"] /\
    last (notifications ui') = Some "canceled".
Proof.
  intros Hfrom Haccs Hbad.
  eexists. split.
  { unfold ComposeCommand_run, ComposeCommand_apply.
    rewrite Hfrom, Haccs. cbn [negb].
    by apply compose_from_cancel. }
  simpl. repeat split.
  unfold notifications. simpl.
  rewrite !omap_app. simpl. rewrite app_assoc. apply last_snoc.
Qed.

Lemma ComposeCommand_cancel_from_witness :
  exists ui',
    ComposeCommand_run config_sample encode_sample parseaddr_sample lookup_sample
      (ComposeCommand_init encode_sample None [] "" "hello" [] [] [])
      [Some "carol@example.org"; None] ui_two_accounts
      = Finish (Done ui') /\
    buffers ui' = [sb_foo] /\
    notifications ui' = [no_account_message; "canceled"].
Proof.
  destruct (ComposeCommand_cancel_from config_sample encode_sample parseaddr_sample
              lookup_sample (ComposeCommand_init encode_sample None [] "" "hello" [] [] [])
              ui_two_accounts alice bob []
              [Some "carol@example.org"] [])
    as (ui' & Hrun & Hbufs & _ & Hev & _).
  - reflexivity.
  - reflexivity.
  - repeat constructor.
  - exists ui'. split; [exact Hrun|]. split; [exact Hbufs|].
    unfold notifications. rewrite Hev. reflexivity.
Defined.

(** ** External commands *)

Lemma startswith_app (p s : string) : startswith p (p +:+ s) = true.
Proof.
  induction p as [|c p IH]; [done|]. simpl.
  rewrite bool_decide_true by done. exact IH.
Qed.

Lemma contains_cons (old : string) (c : ascii) (s : string) :
  contains old (String c s) = startswith old (String c s) || contains old s.
Proof. reflexivity. Qed.

Lemma contains_app_r (old pre s : string) :
  contains old s = true -> contains old (pre +:+ s) = true.
Proof.
  intros Hs. induction pre as [|c pre IH]; [done|].
  change (String c pre +:+ s) with (String c (pre +:+ s)).
  rewrite contains_cons, IH. apply orb_true_r.
Qed.

Lemma contains_placeholder (pre post : string) :
  contains "{}" (pre +:+ "{}" +:+ post) = true.
Proof.
  apply contains_app_r. destruct post; reflexivity.
Qed.

Lemma contains_head_false (old : string) (c : ascii) (s : string) :
  contains old (String c s) = false ->
  startswith old (String c s) = false /\ contains old s = false.
Proof. rewrite contains_cons. intros H. by apply orb_false_iff in H. Qed.

Lemma replace_from_cons (old new : string) (c : ascii) (s : string) :
  replace_from old new (String c s) O =
    if startswith old (String c s)
    then new +:+ replace_from old new s (Nat.pred (String.length old))
    else String c (replace_from old new s O).
Proof. reflexivity. Qed.

Lemma startswith_placeholder_inside (c : ascii) (pre post : string) :
  startswith "{}" (String c pre) = false ->
  startswith "{}" (String c (pre +:+ "{}" +:+ post)) = false.
Proof.
  cbn [startswith]. case_bool_decide as Hc; [|done]. cbn [andb].
  destruct pre as [|d pre]; simpl; done.
Qed.

(** The leftmost placeholder is replaced, and the replacement goes on
    behind it. *)
Lemma replace_placeholder (new pre post : string) :
  contains "{}" pre = false ->
  replace "{}" new (pre +:+ "{}" +:+ post)
  = pre +:+ new +:+ replace "{}" new post.
Proof.
  unfold replace. induction pre as [|c pre IH]; intros Hpre.
  - simpl. by destruct post.
  - apply contains_head_false in Hpre as [Hstart Hrest].
    change (String c pre +:+ "{}" +:+ post) with (String c (pre +:+ "{}" +:+ post)).
    rewrite replace_from_cons, startswith_placeholder_inside by done.
    by rewrite IH.
Qed.

Lemma replace_absent (new s : string) :
  contains "{}" s = false -> replace "{}" new s = s.
Proof.
  unfold replace. induction s as [|c s IH]; intros Hs; [done|].
  apply contains_head_false in Hs as [Hstart Hrest].
  rewrite replace_from_cons, Hstart. by rewrite IH.
Qed.

(** C7: a given path is shell-quoted and put in the place of the
    placeholder when the template has one, and appended after one space
    when it has none; without a path the template is used as it is; with
    the spawn option the result is prefixed with [terminal_cmd] and a
    space. *)
Theorem ExternalCommand_command_line config shell_quote (self : ExternalCommand) :
  (forall p, path self = Some p -> p <> "" ->
     (forall pre post,
        commandstring self = pre +:+ "{}" +:+ post ->
        contains "{}" pre = false -> contains "{}" post = false ->
        cmd_with_path shell_quote self = pre +:+ shell_quote p +:+ post) /\
     (contains "{}" (commandstring self) = true ->
        cmd_with_path shell_quote self
        = replace "{}" (shell_quote p) (commandstring self)) /\
     (contains "{}" (commandstring self) = false ->
        cmd_with_path shell_quote self
        = commandstring self +:+ " " +:+ shell_quote p)) /\
  (path self = None \/ path self = Some "" ->
     cmd_with_path shell_quote self = commandstring self) /\
  command_line config shell_quote self =
    (if spawn self
     then terminal_cmd config +:+ " " +:+ cmd_with_path shell_quote self
     else cmd_with_path shell_quote self).
Proof.
  split; [|split; [|done]].
  - intros p Hp Hne. unfold cmd_with_path. rewrite Hp. simpl.
    rewrite bool_decide_false by done.
    split; [|split].
    + intros pre post Htpl Hpre Hpost. rewrite Htpl.
      rewrite contains_placeholder, replace_placeholder by done.
      by rewrite replace_absent.
    + by intros ->.
    + by intros ->.
  - unfold cmd_with_path. by intros [-> | ->].
Qed.

Lemma ExternalCommand_command_line_witness :
  command_line config_sample quote_sample external_sample
  = "xterm -e less 'a b' -R".
Proof.
  destruct (ExternalCommand_command_line config_sample quote_sample external_sample)
    as (Hpath & _ & Hspawn).
  rewrite Hspawn.
  destruct (Hpath "a b" eq_refl ltac:(discriminate)) as (Hsubst & _ & _).
  rewrite (Hsubst "less " " -R" eq_refl eq_refl eq_refl).
  reflexivity.
Defined.

(** C5: the watcher of the pipe runs, once, exactly when the process exits
    with code 0; it then calls [on_success] and focuses the buffer the
    command was applied from, if that buffer is still on the stack; when
    the exit code is not 0, nothing is written to the pipe and nothing of
    this happens. *)
Theorem ExternalCommand_completion config shell_quote encode_utf8 shlex_split
  subprocess_call (self : ExternalCommand) (ui : UI) (argv : list string) (rc : Z) :
  shlex_split (encode_utf8 (command_line config shell_quote self)) = Ok argv ->
  subprocess_call argv = Ok rc ->
  let pipe := snd (ExternalCommand_apply config shell_quote encode_utf8 shlex_split
                                         subprocess_call self ui) in
  (written pipe = ["success"] <-> rc = 0) /\
  (written pipe = [] <-> rc <> 0) /\
  forall later : UI,
    (rc <> 0 -> deliver pipe later = later) /\
    (rc = 0 ->
       deliver pipe later = afterwards self (current_buffer ui) "success" later /\
       forall done, done = run_on_success self later ->
         match current_buffer ui with
         | Some caller =>
             (refocus self = true -> buffer_in caller (buffers done) = true ->
                deliver pipe later
                = set_current (Some caller) (emit (EvLogInfo "refocussing") done)) /\
             (refocus self = false \/ buffer_in caller (buffers done) = false ->
                deliver pipe later = done)
         | None => deliver pipe later = done
         end).
Proof.
  intros Hsplit Hcall pipe.
  assert (Hpipe : pipe = mkPipe (afterwards self (current_buffer ui))
                                (if rc =? 0 then ["success"] else [])).
  { unfold pipe, ExternalCommand_apply, thread_code.
    rewrite Hsplit, Hcall.
    destruct (in_thread self); destruct (rc =? 0); reflexivity. }
  rewrite Hpipe. clear pipe Hpipe.
  destruct (Z.eqb_spec rc 0) as [Hrc|Hrc]; simpl.
  - split; [done|]. split; [split; [discriminate|done]|].
    intros later. split; [done|]. intros _.
    unfold deliver. simpl. split; [done|].
    intros done ->. unfold afterwards, run_on_success.
    rewrite bool_decide_true by done.
    destruct (current_buffer ui) as [caller|]; [|by destruct (on_success self)].
    split.
    + intros -> Hin.
      destruct (on_success self); simpl in *; rewrite Hin;
        unfold buffer_focus; simpl; by rewrite Hin.
    + intros [-> | Hin]; [by destruct (on_success self)|].
      destruct (on_success self); simpl in *; rewrite Hin;
        by rewrite andb_false_r.
  - split; [split; [discriminate|done]|]. split; [done|].
    intros later. split; [done|]. done.
Qed.

Lemma ExternalCommand_completion_witness :
  deliver (snd (ExternalCommand_apply config_sample quote_sample id split_sample
                  (call_sample 0) external_sample ui_two)) ui_two
    = afterwards external_sample (Some sb_foo) "success" ui_two /\
  deliver (snd (ExternalCommand_apply config_sample quote_sample id split_sample
                  (call_sample 1) external_sample ui_two)) ui_two
    = ui_two.
Proof.
  split.
  - destruct (ExternalCommand_completion config_sample quote_sample id split_sample
                (call_sample 0) external_sample ui_two
                ["xterm -e less 'a b' -R"] 0 eq_refl eq_refl) as (_ & _ & H).
    destruct (H ui_two) as [_ Hok]. destruct (Hok eq_refl) as [Hrun _]. exact Hrun.
  - destruct (ExternalCommand_completion config_sample quote_sample id split_sample
                (call_sample 1) external_sample ui_two
                ["xterm -e less 'a b' -R"] 1 eq_refl eq_refl) as (_ & _ & H).
    destruct (H ui_two) as [Hfail _]. apply Hfail. discriminate.
Defined.

(** ** Forced parameters *)

Lemma registry_fold_lookup (l : list Registration)
  (acc : gmap (string * string) Registration) (k : string * string)
  (r : Registration) :
  fold_left (fun table r => register r table) l acc !! k = Some r ->
  (r ∈ l /\ (reg_mode r, reg_name r) = k) \/ acc !! k = Some r.
Proof.
  revert acc. induction l as [|x l IH]; intros acc Hk; [by right|].
  simpl in Hk. destruct (IH _ Hk) as [[Hin Hkey]|Hacc].
  - left. split; [by right | done].
  - unfold register in Hacc.
    destruct (decide ((reg_mode x, reg_name x) = k)) as [Heq|Hne].
    + rewrite <- Heq, lookup_insert_eq in Hacc. injection Hacc as <-.
      left. split; [by left | done].
    + rewrite lookup_insert_ne in Hacc by done. by right.
Qed.

Lemma registry_lookup (k : string * string) (r : Registration) :
  registry !! k = Some r ->
  r ∈ registrations /\ (reg_mode r, reg_name r) = k.
Proof.
  intros Hk. destruct (registry_fold_lookup _ _ _ _ Hk) as [H|H]; [done|].
  by rewrite lookup_empty in H.
Qed.

Lemma registry_bnext : registry !! (MODE, "bnext") =
  Some (mkReg MODE "bnext" BufferFocusCommandC {[ "offset" := VInt 1 ]}).
Proof. vm_compute. reflexivity. Qed.

Lemma registry_bprevious : registry !! (MODE, "bprevious") =
  Some (mkReg MODE "bprevious" BufferFocusCommandC {[ "offset" := VInt (-1) ]}).
Proof. vm_compute. reflexivity. Qed.

Ltac pick_registration H :=
  unfold registrations in H;
  repeat (apply elem_of_cons in H as [-> | H]; [try discriminate|]);
  try (by apply elem_of_nil in H).

Lemma lookup_command_bnext (mode : string) (r : Registration) :
  lookup_command mode "bnext" = Some r ->
  reg_class r = BufferFocusCommandC /\ reg_forced r !! "offset" = Some (VInt 1).
Proof.
  unfold lookup_command.
  destruct (registry !! (mode, "bnext")) as [r'|] eqn:Hmode.
  - intros [= ->]. apply registry_lookup in Hmode as [Hin Hkey].
    injection Hkey as _ Hname.
    pick_registration Hin. split; reflexivity.
  - rewrite registry_bnext. intros [= <-]. split; reflexivity.
Qed.

Lemma lookup_command_bprevious (mode : string) (r : Registration) :
  lookup_command mode "bprevious" = Some r ->
  reg_class r = BufferFocusCommandC /\ reg_forced r !! "offset" = Some (VInt (-1)).
Proof.
  unfold lookup_command.
  destruct (registry !! (mode, "bprevious")) as [r'|] eqn:Hmode.
  - intros [= ->]. apply registry_lookup in Hmode as [Hin Hkey].
    injection Hkey as _ Hname.
    pick_registration Hin. split; reflexivity.
  - rewrite registry_bprevious. intros [= <-]. split; reflexivity.
Qed.

Lemma commandfactory_forced parse_args (mode name : string) (tokens : list string)
  (cls : CommandClass) (parms : gmap string Value) (z : Z) :
  (forall r, lookup_command mode name = Some r ->
     reg_class r = BufferFocusCommandC /\ reg_forced r !! "offset" = Some (VInt z)) ->
  commandfactory parse_args mode name tokens = Some (cls, parms) ->
  cls = BufferFocusCommandC /\
  parms !! "offset" = Some (VInt z) /\
  BufferFocusCommand_init parms = Some (mkBufferFocus None z).
Proof.
  intros Hreg. unfold commandfactory, resolve.
  destruct (lookup_command mode name) as [r|]; [|done]. simpl.
  destruct (parse_args r tokens) as [user|]; [|done]. simpl.
  intros [= <- <-]. destruct (Hreg r eq_refl) as [Hcls Hforced].
  assert (Hoff : (reg_forced r ∪ user) !! "offset" = Some (VInt z))
    by (by apply lookup_union_Some_l).
  split; [done|]. split; [done|].
  unfold BufferFocusCommand_init. by rewrite Hoff.
Qed.



(** * Further properties of the commands *)

(** ** [SearchCommand] *)

(** X1: however a search command is answered, it never raises and never
    removes or reorders buffers: the stack it leaves is the old one, or the
    old one with one new search buffer for the query at its end, focused,
    and the latter only when no buffer for the query was open. *)
Theorem SearchCommand_stack_only_grows (self : SearchCommand)
  (answers : list Answer) (ui : UI) :
  (forall e ui', SearchCommand_run self answers ui <> Finish (Failed e ui')) /\
  (buffers (step_ui (SearchCommand_run self answers ui)) = buffers ui \/
   (count_query (query self) ui = O /\
    buffers (step_ui (SearchCommand_run self answers ui))
      = buffers ui ++ [new_search_buffer self ui] /\
    current_buffer (step_ui (SearchCommand_run self answers ui))
      = Some (new_search_buffer self ui))).
Proof.
  assert (Hopen : forall o, o = SearchCommand_open self ui ->
            buffers o = buffers ui \/
            (count_query (query self) ui = O /\
             buffers o = buffers ui ++ [new_search_buffer self ui] /\
             current_buffer o = Some (new_search_buffer self ui))).
  { intros o ->. destruct (SearchCommand_open_cases self ui)
      as [(sb & _ & _ & ->)|[Hc ->]]; [by left | by right]. }
  unfold SearchCommand_run, SearchCommand_apply.
  case_bool_decide as Hq; [|rewrite drive_finish; split; [done | by left]].
  destruct (bool_decide (query self = "*") && bool_decide (is_Some (current_buffer ui))).
  - destruct answers as [|a rest]; [split; [done | by left]|].
    cbn [drive]. unfold SearchCommand_resume.
    case_bool_decide; rewrite drive_finish; (split; [done|]); [by left|].
    by apply Hopen.
  - rewrite drive_finish. split; [done|]. by apply Hopen.
Qed.

(** X2: the command asks its question exactly when the query is "*" and a
    buffer is focused; answered "no", it leaves the whole interface as it
    was, without even a notification. *)
Theorem SearchCommand_asks_iff (self : SearchCommand) (ui : UI) (rest : list Answer) :
  ((exists r s ui', SearchCommand_apply self ui = Yield r s ui') <->
   query self = "*" /\ is_Some (current_buffer ui)) /\
  (query self = "*" -> is_Some (current_buffer ui) ->
   SearchCommand_apply self ui = Yield (ReqChoice search_all_question "yes" "no") tt ui /\
   SearchCommand_run self (Some "no" :: rest) ui = Finish (Done ui)).
Proof.
  split; [split|].
  - intros (r & s & ui' & Hy). unfold SearchCommand_apply in Hy.
    case_bool_decide; [|done].
    case_bool_decide; [|done]. case_bool_decide; [|done]. done.
  - intros [Hq Hcur]. unfold SearchCommand_apply.
    rewrite Hq. rewrite bool_decide_true by done.
    rewrite (bool_decide_true (is_Some _)) by done. simpl. eauto.
  - intros Hq Hcur. unfold SearchCommand_run, SearchCommand_apply.
    rewrite Hq. rewrite (bool_decide_true (is_Some _)) by done. simpl.
    split; [done|]. apply drive_finish.
Qed.

Lemma SearchCommand_asks_iff_witness :
  SearchCommand_run (mkSearch "*") [Some "no"] ui_two = Finish (Done ui_two).
Proof.
  destruct (SearchCommand_asks_iff (mkSearch "*") ui_two []) as [_ H].
  destruct (H eq_refl) as [_ Hrun]; [by eexists|]. exact Hrun.
Defined.

Lemma join_two_nonempty (sep p q : string) (rest : list string) :
  sep <> "" -> join sep (p :: q :: rest) <> "".
Proof.
  intros Hsep. cbn [join]. destruct p; [|done]. simpl.
  destruct sep; [done|]. done.
Qed.

(** X3: the words of the command line are joined by single spaces, so the
    query is empty, and the command only notifies, exactly when there is no
    word or one empty word. *)
Theorem SearchCommand_init_empty (words : list string) (ui : UI) :
  (query (SearchCommand_init words) = "" <-> words = [] \/ words = [""]) /\
  (SearchCommand_apply (SearchCommand_init words) ui
     = Finish (Done (notify "empty query string" ui))
   <-> words = [] \/ words = [""]).
Proof.
  assert (Hq : query (SearchCommand_init words) = "" <-> words = [] \/ words = [""]).
  { unfold SearchCommand_init. cbn [query]. split.
    - destruct words as [|p [|q rest]]; [by left | | ].
      + simpl. intros ->. by right.
      + intros H. by apply join_two_nonempty in H.
    - by intros [-> | ->]. }
  split; [exact Hq|]. rewrite <- Hq.
  unfold SearchCommand_apply. split.
  - case_bool_decide as Hne; [|intros _; by destruct (decide (query (SearchCommand_init words) = ""))].
    destruct (_ && _); [done|].
    intros [= Hopen]. exfalso.
    assert (Hev : events (SearchCommand_open (SearchCommand_init words) ui)
                  = events (notify "empty query string" ui)) by (by rewrite Hopen).
    destruct (SearchCommand_open_cases (SearchCommand_init words) ui)
      as [(sb & _ & _ & Heq)|[_ Heq]]; rewrite Heq in Hev; simpl in Hev;
      apply (f_equal length) in Hev; rewrite length_app in Hev; simpl in Hev; lia.
  - intros ->. by rewrite bool_decide_false by (intros H; by apply H).
Qed.

(** ** [BufferFocusCommand] *)

Lemma same_buffer_sym (a b : Buffer) : same_buffer a b = same_buffer b a.
Proof. unfold same_buffer. apply Nat.eqb_sym. Qed.

Lemma index_of_buffer_in (c : Buffer) (bufs : list Buffer) :
  buffer_in c bufs = true <-> is_Some (index_of c bufs).
Proof.
  unfold buffer_in. induction bufs as [|x rest IH]; simpl.
  - split; [done | by intros [? ?]].
  - rewrite (same_buffer_sym c x). destruct (same_buffer x c); simpl; [by split; eauto|].
    rewrite IH. destruct (index_of c rest); simpl; split; intros H; eauto;
      by destruct H.
Qed.

(** X4: with a non-zero offset the command succeeds exactly when the
    focused buffer is on the stack, and then focuses a buffer of the stack;
    otherwise [list.index] raises [ValueError] and nothing has changed.  No
    other exception can leave it. *)
Theorem BufferFocusCommand_fails_iff gsb (self : BufferFocusCommand) (ui : UI) :
  bf_offset self <> 0 ->
  if focus_on_stack ui
  then exists b, b ∈ buffers ui /\
         BufferFocusCommand_apply gsb self ui = Done (set_current (Some b) ui)
  else BufferFocusCommand_apply gsb self ui = Failed ValueError ui.
Proof.
  intros Hk. unfold focus_on_stack.
  destruct (current_buffer ui) as [cur|] eqn:Hcur.
  - destruct (buffer_in cur (buffers ui)) eqn:Hin.
    + apply index_of_buffer_in in Hin as [i Hi].
      destruct (BufferFocusCommand_step gsb self ui Hk cur i Hcur Hi) as (b & Hb & Happ).
      exists b. split; [by eapply list_elem_of_lookup_2 | done].
    + unfold BufferFocusCommand_apply.
      destruct (Z.eqb_spec (bf_offset self) 0) as [|_]; [done|]. simpl.
      rewrite Hcur. destruct (index_of cur (buffers ui)) eqn:Hi; [|done].
      assert (buffer_in cur (buffers ui) = true) by (apply index_of_buffer_in; eauto).
      congruence.
  - unfold BufferFocusCommand_apply.
    destruct (Z.eqb_spec (bf_offset self) 0) as [|_]; [done|]. simpl.
    by rewrite Hcur.
Qed.

Lemma BufferFocusCommand_fails_iff_witness :
  BufferFocusCommand_apply no_selection (mkBufferFocus None 1)
    (ui_of [sb_foo; sb_all] (Some bl_one))
  = Failed ValueError (ui_of [sb_foo; sb_all] (Some bl_one)).
Proof.
  apply (BufferFocusCommand_fails_iff no_selection (mkBufferFocus None 1)
           (ui_of [sb_foo; sb_all] (Some bl_one))).
  simpl. lia.
Defined.

Lemma BufferFocusCommand_two_steps gsb (b1 b2 : option Buffer) (k1 k2 : Z)
  (ui : UI) (cur : Buffer) (i : nat) :
  k1 <> 0 -> k2 <> 0 ->
  NoDup (ident <$> buffers ui) ->
  current_buffer ui = Some cur ->
  index_of cur (buffers ui) = Some i ->
  exists b c,
    BufferFocusCommand_apply gsb (mkBufferFocus b1 k1) ui
      = Done (set_current (Some b) ui) /\
    BufferFocusCommand_apply gsb (mkBufferFocus b2 k2) (set_current (Some b) ui)
      = Done (set_current (Some c) ui) /\
    buffers ui !! Z.to_nat ((Z.of_nat i + (k1 + k2))
                              mod Z.of_nat (length (buffers ui))) = Some c.
Proof.
  intros Hk1 Hk2 Hnd Hcur Hidx.
  destruct (BufferFocusCommand_step gsb (mkBufferFocus b1 k1) ui Hk1 cur i Hcur Hidx)
    as (b & Hb & Happ1). cbn [bf_offset] in Hb.
  assert (Hidx1 : index_of b (buffers ui) =
    Some (Z.to_nat ((Z.of_nat i + k1) mod Z.of_nat (length (buffers ui)))))
    by (eapply index_of_lookup; eauto).
  destruct (BufferFocusCommand_step gsb (mkBufferFocus b2 k2) (set_current (Some b) ui)
              Hk2 b _ eq_refl Hidx1) as (c & Hc & Happ2).
  cbn [bf_offset set_current buffers] in Hc.
  exists b, c. split; [exact Happ1|]. split; [exact Happ2|].
  rewrite <- Hc. f_equal. f_equal.
  apply lookup_lt_Some in Hb.
  set (n := Z.of_nat (length (buffers ui))) in *.
  assert (0 < n) by (unfold n; lia).
  rewrite Z2Nat.id by (apply Z.mod_pos_bound; lia).
  rewrite Zplus_mod_idemp_l. f_equal. lia.
Qed.

(** X5: offsets add up.  On a stack of distinct buffers with the focus on
    it, moving by [k1] and then by [k2] ends where one move by [k1 + k2]
    ends, whenever none of the three offsets is zero. *)
Theorem BufferFocusCommand_offsets_add gsb (b1 b2 b3 : option Buffer) (k1 k2 : Z)
  (ui : UI) :
  k1 <> 0 -> k2 <> 0 -> k1 + k2 <> 0 ->
  NoDup (ident <$> buffers ui) ->
  focus_on_stack ui = true ->
  exists ui1,
    BufferFocusCommand_apply gsb (mkBufferFocus b1 k1) ui = Done ui1 /\
    BufferFocusCommand_apply gsb (mkBufferFocus b2 k2) ui1
      = BufferFocusCommand_apply gsb (mkBufferFocus b3 (k1 + k2)) ui.
Proof.
  intros Hk1 Hk2 Hk Hnd Hfocus. unfold focus_on_stack in Hfocus.
  destruct (current_buffer ui) as [cur|] eqn:Hcur; [|done].
  apply index_of_buffer_in in Hfocus as [i Hidx].
  destruct (BufferFocusCommand_two_steps gsb b1 b2 k1 k2 ui cur i)
    as (b & c & Happ1 & Happ2 & Hc); try done.
  destruct (BufferFocusCommand_step gsb (mkBufferFocus b3 (k1 + k2)) ui Hk cur i Hcur Hidx)
    as (c' & Hc' & Happ3). cbn [bf_offset] in Hc'.
  exists (set_current (Some b) ui). split; [exact Happ1|].
  rewrite Happ2, Happ3. congruence.
Qed.

Lemma BufferFocusCommand_offsets_add_witness :
  exists ui1,
    BufferFocusCommand_apply no_selection (mkBufferFocus None 1) ui_three = Done ui1 /\
    BufferFocusCommand_apply no_selection (mkBufferFocus None 1) ui1
      = BufferFocusCommand_apply no_selection (mkBufferFocus None 2) ui_three.
Proof.
  apply (BufferFocusCommand_offsets_add no_selection None None None 1 1 ui_three);
    try lia; try reflexivity.
  compute_done.
Defined.

(** X6: there and back.  On a stack of distinct buffers, a move by [k]
    followed by a move by [-k] (as [bnext] followed by [bprevious]) puts
    the focus back on the buffer it was on and leaves the stack as it was. *)
Theorem BufferFocusCommand_there_and_back gsb (b1 b2 : option Buffer) (k : Z)
  (ui : UI) (cur : Buffer) :
  k <> 0 ->
  NoDup (ident <$> buffers ui) ->
  current_buffer ui = Some cur ->
  buffer_in cur (buffers ui) = true ->
  exists ui1 ui2 c,
    BufferFocusCommand_apply gsb (mkBufferFocus b1 k) ui = Done ui1 /\
    BufferFocusCommand_apply gsb (mkBufferFocus b2 (- k)) ui1 = Done ui2 /\
    buffers ui2 = buffers ui /\
    current_buffer ui2 = Some c /\
    ident c = ident cur.
Proof.
  intros Hk Hnd Hcur Hin.
  apply index_of_buffer_in in Hin as [i Hidx].
  destruct (BufferFocusCommand_two_steps gsb b1 b2 k (- k) ui cur i)
    as (b & c & Happ1 & Happ2 & Hc); try done; [lia|].
  exists (set_current (Some b) ui), (set_current (Some c) ui), c.
  repeat split; try done.
  destruct (index_of_Some _ _ _ Hidx) as (b0 & Hb0 & Hid).
  assert (Hlt := lookup_lt_Some _ _ _ Hb0).
  replace (Z.of_nat i + (k + - k)) with (Z.of_nat i) in Hc by lia.
  rewrite Z.mod_small, Nat2Z.id in Hc by lia. congruence.
Qed.

Lemma BufferFocusCommand_there_and_back_witness :
  exists ui1 ui2,
    BufferFocusCommand_apply no_selection (mkBufferFocus None 1) ui_three = Done ui1 /\
    BufferFocusCommand_apply no_selection (mkBufferFocus None (-1)) ui1 = Done ui2 /\
    current_buffer ui2 = Some bl_one.
Proof.
  destruct (BufferFocusCommand_there_and_back no_selection None None 1 ui_three bl_one)
    as (ui1 & ui2 & c & H1 & H2 & _ & Hc & _).
  - lia.
  - compute_done.
  - reflexivity.
  - reflexivity.
  - exists ui1, ui2. split; [exact H1|]. split; [exact H2|].
    revert H1 H2. intros H1 H2. vm_compute in H1. injection H1 as <-.
    vm_compute in H2. injection H2 as <-. reflexivity.
Defined.

(** X7: only the offset modulo the length of the stack matters: two
    non-zero offsets that are congruent modulo the number of open buffers
    give the same result, whatever buffer the commands were built with; in
    particular, with one buffer open every non-zero offset keeps the focus
    on it. *)
Theorem BufferFocusCommand_offset_modulo gsb (b1 b2 : option Buffer) (k1 k2 : Z)
  (ui : UI) :
  k1 <> 0 -> k2 <> 0 ->
  k1 mod Z.of_nat (length (buffers ui)) = k2 mod Z.of_nat (length (buffers ui)) ->
  BufferFocusCommand_apply gsb (mkBufferFocus b1 k1) ui
  = BufferFocusCommand_apply gsb (mkBufferFocus b2 k2) ui.
Proof.
  intros Hk1 Hk2 Hmod. unfold BufferFocusCommand_apply. cbn [bf_offset bf_buffer].
  destruct (Z.eqb_spec k1 0) as [|_]; [done|].
  destruct (Z.eqb_spec k2 0) as [|_]; [done|]. simpl.
  destruct (current_buffer ui) as [cur|]; [|done].
  destruct (index_of cur (buffers ui)) as [i|]; [|done].
  destruct (Z.of_nat (length (buffers ui)) =? 0); [done|].
  rewrite (Zplus_mod (Z.of_nat i) k1), (Zplus_mod (Z.of_nat i) k2), Hmod. done.
Qed.

Lemma BufferFocusCommand_offset_modulo_witness :
  BufferFocusCommand_apply no_selection (mkBufferFocus None (-1)) ui_three
  = BufferFocusCommand_apply no_selection (mkBufferFocus (Some sb_foo) 5) ui_three.
Proof.
  apply (BufferFocusCommand_offset_modulo no_selection None (Some sb_foo) (-1) 5 ui_three);
    try lia. reflexivity.
Defined.

(** ** [OpenBufferlistCommand] and [TagListCommand] *)

(** X8: opening the buffer list is idempotent: a second run, with whatever
    filter, changes nothing any more; and the command never leaves more
    buffer lists open than it found, except the one it opens when there
    was none. *)
Theorem OpenBufferlistCommand_idempotent (self again : OpenBufferlistCommand) (ui : UI) :
  OpenBufferlistCommand_apply again (final_ui (OpenBufferlistCommand_apply self ui))
    = OpenBufferlistCommand_apply self ui /\
  length (get_buffers_of_type TBufferlist (final_ui (OpenBufferlistCommand_apply self ui)))
    = Nat.max 1 (length (get_buffers_of_type TBufferlist ui)).
Proof.
  unfold OpenBufferlistCommand_apply.
  destruct (get_buffers_of_type TBufferlist ui) as [|first rest] eqn:Hf.
  - rewrite buffer_open_eq. cbn [final_ui].
    set (new := mkBuffer (fresh_ident ui) (BufferlistBuffer (ob_filtfun self))).
    assert (Hf' : get_buffers_of_type TBufferlist
                    (set_current (Some new) (set_buffers (buffers ui ++ [new]) ui))
                  = [new]).
    { unfold get_buffers_of_type in *. simpl. by rewrite filter_app, Hf. }
    rewrite Hf'. split; [|done]. f_equal.
    rewrite buffer_focus_member; [done|]. simpl.
    apply elem_of_app. right. by left.
  - assert (Hin : first ∈ buffers ui).
    { assert (H : first ∈ get_buffers_of_type TBufferlist ui) by (rewrite Hf; by left).
      unfold get_buffers_of_type in H. by apply list_elem_of_filter in H as [_ ?]. }
    rewrite buffer_focus_member by done. cbn [final_ui].
    assert (Hf' : get_buffers_of_type TBufferlist (set_current (Some first) ui)
                  = first :: rest) by exact Hf.
    rewrite Hf'. split; [|simpl; lia]. f_equal.
    by rewrite buffer_focus_member.
Qed.

(** X9: the tag list command has no such check: every run appends one new
    tag list buffer holding the current tags, a buffer that was not on the
    stack before, and focuses it; the buffers already open stay in place. *)
Theorem TagListCommand_always_opens get_all_tags (self : TagListCommand) (ui : UI) :
  exists buf,
    TagListCommand_apply get_all_tags self ui
      = Done (set_current (Some buf) (set_buffers (buffers ui ++ [buf]) ui)) /\
    body buf = TagListBuffer (get_all_tags ui) (tl_filtfun self) /\
    buffer_in buf (buffers ui) = false /\
    length (get_buffers_of_type TTagList
              (final_ui (TagListCommand_apply get_all_tags self ui)))
      = S (length (get_buffers_of_type TTagList ui)).
Proof.
  exists (mkBuffer (fresh_ident ui) (TagListBuffer (get_all_tags ui) (tl_filtfun self))).
  unfold TagListCommand_apply.
  rewrite buffer_focus_member by (simpl; apply elem_of_app; right; by left).
  split; [done|]. split; [done|]. split; [apply fresh_ident_not_in|].
  unfold get_buffers_of_type. simpl.
  rewrite filter_app, length_app. simpl. lia.
Qed.

(** ** [FlushCommand] *)

Lemma notifications_retry_events (timeout : Z) (n : nat) :
  omap (fun e => match e with EvNotify m => Some m | _ => None end)
       (concat (replicate n (retry_events timeout)))
  = replicate n (locked_message timeout).
Proof.
  induction n as [|n IH]; [done|].
  cbn [replicate concat]. by rewrite omap_app, IH.
Qed.

(** X10: the command retries for as long as it takes: when the index is
    locked for the first [n] attempts and free at the next, the command and
    the main loop end normally after [n + 1] calls of [flush()] and [n]
    notifications, with no alarm left and the buffers untouched. *)
Theorem FlushCommand_retries_until_done config (n fuel : nat) (ui : UI)
  (rest : list FlushOutcome) :
  dbman ui = replicate n FlushLocked ++ FlushDone :: rest ->
  alarms ui = [] ->
  (n <= fuel)%nat ->
  exists ui',
    flush_session config fuel ui = Some (Done ui') /\
    flush_calls ui' = (flush_calls ui + n + 1)%nat /\
    notifications ui' = notifications ui
      ++ replicate n (locked_message (flush_retry_timeout config)) /\
    alarms ui' = [] /\
    dbman ui' = rest /\
    buffers ui' = buffers ui /\
    current_buffer ui' = current_buffer ui.
Proof.
  intros Hdb Hal Hfuel. eexists. split.
  { by apply (flush_session_locked config n fuel ui rest). }
  repeat split. unfold notifications. simpl.
  by rewrite omap_app, notifications_retry_events.
Qed.

Lemma FlushCommand_retries_until_done_witness :
  exists ui',
    flush_session config_sample 3
      (mkUI [sb_foo] (Some sb_foo) [] []
            [FlushLocked; FlushLocked; FlushLocked; FlushDone; FlushLocked] O [])
      = Some (Done ui') /\
    flush_calls ui' = 4%nat /\
    notifications ui' = ["index locked, will try again in 5 secs";
                         "index locked, will try again in 5 secs";
                         "index locked, will try again in 5 secs"] /\
    alarms ui' = [].
Proof.
  destruct (FlushCommand_retries_until_done config_sample 3 3
              (mkUI [sb_foo] (Some sb_foo) [] []
                    [FlushLocked; FlushLocked; FlushLocked; FlushDone; FlushLocked] O [])
              [FlushLocked])
    as (ui' & Hrun & Hcalls & Hnote & Hal & _).
  - reflexivity.
  - reflexivity.
  - lia.
  - exists ui'. split; [exact Hrun|]. split; [exact Hcalls|].
    split; [exact Hnote | exact Hal].
Defined.

Lemma flush_session_failed config (what : string) (n : nat) :
  forall fuel ui rest,
    dbman ui = replicate n FlushLocked ++ FlushFailed what :: rest ->
    alarms ui = [] ->
    (n <= fuel)%nat ->
    flush_session config fuel ui =
      Some (Failed (OtherError what)
              (mkUI (buffers ui) (current_buffer ui)
                    (events ui ++
                     concat (replicate n (retry_events (flush_retry_timeout config))))
                    [] rest (flush_calls ui + n + 1) (accounts ui))).
Proof.
  induction n as [|n IH]; intros fuel ui rest Hdb Hal Hfuel.
  - destruct ui as [bs cur evs als db calls accs]. simpl in *. subst.
    unfold flush_session, FlushCommand_apply, dbman_flush. simpl.
    by rewrite app_nil_r, Nat.add_0_r, Nat.add_1_r.
  - destruct fuel as [|fuel]; [lia|].
    destruct ui as [bs cur evs als db calls accs]. simpl in *. subst.
    unfold flush_session at 1. unfold FlushCommand_apply, dbman_flush.
    cbn -[mainloop flush_session].
    erewrite mainloop_retry by reflexivity. cbn -[flush_session].
    erewrite IH; [|reflexivity|reflexivity|lia]. simpl.
    do 3 f_equal; [|lia].
    by rewrite <- !app_assoc.
Qed.

(** X11: only the locked index is retried: when [flush()] fails in another
    way, at once or after [n] locked attempts, the exception leaves the
    command, no further retry is scheduled and the user is not notified of
    it. *)
Theorem FlushCommand_other_failure config (what : string) (n fuel : nat) (ui : UI)
  (rest : list FlushOutcome) :
  dbman ui = replicate n FlushLocked ++ FlushFailed what :: rest ->
  alarms ui = [] ->
  (n <= fuel)%nat ->
  exists ui',
    flush_session config fuel ui = Some (Failed (OtherError what) ui') /\
    flush_calls ui' = (flush_calls ui + n + 1)%nat /\
    alarms ui' = [] /\
    notifications ui' = notifications ui
      ++ replicate n (locked_message (flush_retry_timeout config)) /\
    dbman ui' = rest.
Proof.
  intros Hdb Hal Hfuel. eexists. split.
  { by apply (flush_session_failed config what n fuel ui rest). }
  repeat split. unfold notifications. simpl.
  by rewrite omap_app, notifications_retry_events.
Qed.

Lemma FlushCommand_other_failure_witness :
  exists ui',
    flush_session config_sample 1
      (mkUI [] None [] [] [FlushLocked; FlushFailed "disk full"; FlushDone] O [])
      = Some (Failed (OtherError "disk full") ui') /\
    flush_calls ui' = 2%nat /\
    alarms ui' = [].
Proof.
  destruct (FlushCommand_other_failure config_sample "disk full" 1 1
              (mkUI [] None [] [] [FlushLocked; FlushFailed "disk full"; FlushDone] O [])
              [FlushDone])
    as (ui' & Hrun & Hcalls & Hal & _).
  - reflexivity.
  - reflexivity.
  - lia.
  - exists ui'. split; [exact Hrun|]. split; [exact Hcalls | exact Hal].
Defined.

(** ** [ExternalCommand] and [EditCommand] *)

(** X12: run in the foreground, the command stops the screen, logs and
    runs the process, and starts the screen again, whatever the exit code;
    but when the command line cannot be split or the process cannot be
    started, the exception leaves [apply] with the screen still stopped,
    and nothing is written to the pipe. *)
Theorem ExternalCommand_foreground config shell_quote encode_utf8 shlex_split
  subprocess_call (self : ExternalCommand) (ui : UI) :
  in_thread self = false ->
  let cmd := encode_utf8 (command_line config shell_quote self) in
  let log := EvLogInfo ("calling external command: " +:+ cmd) in
  let r := ExternalCommand_apply config shell_quote encode_utf8 shlex_split
             subprocess_call self ui in
  buffers (final_ui (fst r)) = buffers ui /\
  current_buffer (final_ui (fst r)) = current_buffer ui /\
  match run_process shlex_split subprocess_call cmd with
  | Ok rc =>
      exists ui', fst r = Done ui' /\
        events ui' = events ui ++ [EvScreenStop; log; EvScreenStart]
  | Raise e =>
      exists ui', fst r = Failed e ui' /\
        events ui' = events ui ++ [EvScreenStop; log] /\
        written (snd r) = []
  end.
Proof.
  intros Hth cmd log r. unfold r, ExternalCommand_apply, thread_code, run_process.
  rewrite Hth. fold cmd.
  destruct (shlex_split cmd) as [argv|e]; simpl.
  - destruct (subprocess_call argv) as [rc|e]; simpl.
    + destruct (rc =? 0); simpl; repeat split; eexists; (split; [reflexivity|]);
        simpl; by rewrite <- !app_assoc.
    + repeat split. eexists. split; [reflexivity|]. simpl.
      by rewrite <- !app_assoc.
  - repeat split. eexists. split; [reflexivity|]. simpl.
    by rewrite <- !app_assoc.
Qed.

Lemma ExternalCommand_foreground_witness :
  exists ui',
    fst (ExternalCommand_apply config_sample quote_sample id split_sample
           call_missing external_sample ui_two) = Failed OSError ui' /\
    events ui' = [EvScreenStop;
                  EvLogInfo "calling external command: xterm -e less 'a b' -R"].
Proof.
  destruct (ExternalCommand_foreground config_sample quote_sample id split_sample
              call_missing external_sample ui_two eq_refl) as (_ & _ & ui' & Hr & Hev & _).
  exists ui'. split; [exact Hr | exact Hev].
Defined.

(** X13: run in a thread, the command never raises and never touches the
    screen, the buffers or the focus: it only logs; and the thread reports
    success through the pipe exactly when the process could be started and
    exited with code 0. *)
Theorem ExternalCommand_in_thread config shell_quote encode_utf8 shlex_split
  subprocess_call (self : ExternalCommand) (ui : UI) :
  in_thread self = true ->
  let cmd := encode_utf8 (command_line config shell_quote self) in
  let r := ExternalCommand_apply config shell_quote encode_utf8 shlex_split
             subprocess_call self ui in
  fst r = Done (emit (EvLogInfo ("calling external command: " +:+ cmd)) ui) /\
  (written (snd r) = ["success"] <->
   run_process shlex_split subprocess_call cmd = Ok 0) /\
  (written (snd r) = [] <->
   run_process shlex_split subprocess_call cmd <> Ok 0).
Proof.
  intros Hth cmd r. unfold r, ExternalCommand_apply, thread_code, run_process.
  rewrite Hth. fold cmd.
  destruct (shlex_split cmd) as [argv|e]; simpl.
  - destruct (subprocess_call argv) as [rc|e]; simpl.
    + destruct (Z.eqb_spec rc 0) as [->|Hrc]; simpl;
        (split; [done|]); split; split; intros; try done; congruence.
    + split; [done|]. split; split; done.
  - split; [done|]. split; split; done.
Qed.

Lemma ExternalCommand_in_thread_witness :
  fst (ExternalCommand_apply config_sample quote_sample id split_sample call_missing
         (mkExternal "mutt" None false true true None) ui_two)
  = Done (emit (EvLogInfo "calling external command: mutt") ui_two).
Proof.
  apply (ExternalCommand_in_thread config_sample quote_sample id split_sample
           call_missing (mkExternal "mutt" None false true true None) ui_two eq_refl).
Defined.

Lemma join_cons_cons (sep p q : string) (rest : list string) :
  join sep (p :: q :: rest) = p +:+ sep +:+ join sep (q :: rest).
Proof. reflexivity. Qed.

Lemma replace_join (new : string) (parts : list string) :
  Forall (fun p => contains "{}" p = false) parts ->
  replace "{}" new (join "{}" parts) = join new parts.
Proof.
  induction 1 as [|p rest Hp Hrest IH]; [done|].
  destruct rest as [|q rest].
  - simpl. by apply replace_absent.
  - rewrite !join_cons_cons, replace_placeholder by done. by rewrite IH.
Qed.

(** X14: every placeholder of the template is replaced, not only the
    first: a template made of pieces separated by placeholders becomes the
    same pieces separated by the quoted path. *)
Theorem ExternalCommand_every_placeholder shell_quote (self : ExternalCommand)
  (p : string) (piece1 piece2 : string) (pieces : list string) :
  path self = Some p -> p <> "" ->
  commandstring self = join "{}" (piece1 :: piece2 :: pieces) ->
  Forall (fun piece => contains "{}" piece = false) (piece1 :: piece2 :: pieces) ->
  cmd_with_path shell_quote self = join (shell_quote p) (piece1 :: piece2 :: pieces).
Proof.
  intros Hp Hne Htpl Hpieces. unfold cmd_with_path. rewrite Hp. simpl path_given.
  rewrite bool_decide_false by done.
  rewrite Htpl. rewrite join_cons_cons at 1. rewrite contains_placeholder.
  by apply replace_join.
Qed.

Lemma ExternalCommand_every_placeholder_witness :
  cmd_with_path quote_sample (mkExternal "cp {} {}.bak" (Some "f") false true false None)
  = "cp 'f' 'f'.bak".
Proof.
  apply (ExternalCommand_every_placeholder quote_sample
           (mkExternal "cp {} {}.bak" (Some "f") false true false None)
           "f" "cp " " " [".bak"]).
  - reflexivity.
  - discriminate.
  - reflexivity.
  - repeat constructor.
Defined.

(** X15: the edit command runs in a thread exactly when it runs in a new
    terminal, the configured [spawn_editor] deciding when the caller does
    not; and for an editor command without placeholder its command line is
    the editor command, a space and the quoted path, behind the terminal
    command when spawning. *)
Theorem EditCommand_command_line config shell_quote (p : string)
  (spawn_arg : option bool) (refocus_arg : bool) (callback : option (UI -> UI)) :
  p <> "" ->
  contains "{}" (editor_cmd config) = false ->
  let self := EditCommand_init config (Some p) spawn_arg refocus_arg callback in
  in_thread self = spawn self /\
  spawn self = default (spawn_editor config) spawn_arg /\
  command_line config shell_quote self =
    (if spawn self
     then terminal_cmd config +:+ " " +:+ editor_cmd config +:+ " " +:+ shell_quote p
     else editor_cmd config +:+ " " +:+ shell_quote p).
Proof.
  intros Hp Hed self. split; [done|]. split; [by destruct spawn_arg|].
  unfold command_line, cmd_with_path. simpl.
  rewrite bool_decide_false by done. by rewrite Hed.
Qed.

Lemma EditCommand_command_line_witness :
  command_line config_sample quote_sample
    (EditCommand_init config_sample (Some "/tmp/draft") (Some true) true None)
  = "xterm -e vim '/tmp/draft'".
Proof.
  apply (EditCommand_command_line config_sample quote_sample "/tmp/draft"
           (Some true) true None).
  - discriminate.
  - reflexivity.
Defined.

(** ** [ComposeCommand] *)

Lemma msg_contains_set (name key value : string) (msg : Message) :
  msg_contains name (msg_set key value msg)
  = msg_contains name msg || bool_decide (lower key = lower name).
Proof.
  unfold msg_contains, msg_set. rewrite existsb_app. simpl.
  by rewrite orb_false_r.
Qed.

Lemma msg_get_set_absent (name value : string) (msg : Message) :
  msg_contains name msg = false ->
  msg_get name (msg_set name value msg) = Some value.
Proof.
  unfold msg_contains, msg_get, msg_set. intros Habs.
  induction msg as [|kv msg IH]; simpl in *.
  - by rewrite bool_decide_true.
  - apply orb_false_iff in Habs as [Hkv Hrest]. rewrite Hkv. by apply IH.
Qed.

(** X16: cancelling ends the command at whichever prompt it is waiting:
    the only effect is the notification "canceled", and the envelope is
    not handed on. *)
Theorem ComposeCommand_cancel_anywhere config encode_header parseaddr lookup
  (pc : ComposePC) (self : ComposeCommand) (r : Request) (ui : UI)
  (rest : list Answer) :
  ComposeCommand_resume config encode_header parseaddr lookup (pc, self) None ui
    = Finish (Done (notify "canceled" ui)) /\
  drive (ComposeCommand_resume config encode_header parseaddr lookup)
        (None :: rest) (Yield r (pc, self) ui)
    = Finish (Done (notify "canceled" ui)).
Proof.
  assert (H : ComposeCommand_resume config encode_header parseaddr lookup
                (pc, self) None ui = Finish (Done (notify "canceled" ui)))
    by (by destruct pc).
  split; [exact H|]. cbn [drive]. rewrite H. apply drive_finish.
Qed.

Lemma only_events_added_refl (ui : UI) : only_events_added ui ui.
Proof. by repeat split. Qed.

Lemma only_events_added_emit (e : Event) (ui ui' : UI) :
  only_events_added ui ui' -> only_events_added ui (emit e ui').
Proof.
  intros (? & ? & ? & ? & ? & ? & Hev). repeat split; try done.
  simpl. by apply prefix_app_r.
Qed.

Lemma only_events_added_trans (a b c : UI) :
  only_events_added a b -> only_events_added b c -> only_events_added a c.
Proof.
  intros (? & ? & ? & ? & ? & ? & Hab) (? & ? & ? & ? & ? & ? & Hbc).
  repeat split; try congruence. by etrans.
Qed.

Lemma compose_subject_frame config self ui :
  only_events_added ui
    (step_ui (compose_subject config self ui)).
Proof.
  unfold compose_subject, compose_envelope.
  destruct (_ && _); simpl;
    [apply only_events_added_refl
    | apply only_events_added_emit, only_events_added_refl].
Qed.

Lemma compose_to_frame config parseaddr lookup self ui :
  only_events_added ui
    (step_ui (compose_to config parseaddr lookup self ui)).
Proof.
  unfold compose_to. destruct (negb _); [|apply compose_subject_frame].
  simpl. do 2 apply only_events_added_emit. apply only_events_added_refl.
Qed.

Lemma ComposeCommand_apply_frame config parseaddr lookup self ui :
  only_events_added ui
    (step_ui (ComposeCommand_apply config parseaddr lookup self ui)).
Proof.
  unfold ComposeCommand_apply. destruct (negb _); [|apply compose_to_frame].
  destruct (accounts ui) as [|a [|a' accs]].
  - apply only_events_added_emit, only_events_added_refl.
  - apply compose_to_frame.
  - apply only_events_added_refl.
Qed.

Lemma ComposeCommand_resume_frame config encode_header parseaddr lookup st answer ui :
  only_events_added ui
    (step_ui (ComposeCommand_resume config encode_header parseaddr lookup st answer ui)).
Proof.
  destruct st as [pc self]. unfold ComposeCommand_resume. cbn [fst snd].
  destruct pc as [accs| |].
  - destruct (negb _); [apply only_events_added_emit, only_events_added_refl|].
    destruct answer as [s|]; [|apply only_events_added_emit, only_events_added_refl].
    destruct s as [|c s]; [apply only_events_added_emit, only_events_added_refl|].
    destruct (lookup _); [apply compose_to_frame | apply only_events_added_refl].
  - destruct answer; [apply compose_subject_frame|].
    apply only_events_added_emit, only_events_added_refl.
  - destruct answer; unfold compose_envelope;
      apply only_events_added_emit, only_events_added_refl.
Qed.

Lemma drive_frame {S : Type} (resume : S -> Answer -> UI -> Step S) :
  (forall s a ui, only_events_added ui (step_ui (resume s a ui))) ->
  forall answers st, only_events_added (step_ui st) (step_ui (drive resume answers st)).
Proof.
  intros Hres. induction answers as [|a rest IH]; intros st.
  - destruct st; apply only_events_added_refl.
  - destruct st as [r s ui|o]; [|apply only_events_added_refl].
    cbn [drive]. eapply only_events_added_trans; [|apply IH]. apply Hres.
Qed.

(** X17: however its prompts are answered, the compose command touches
    neither the buffer stack nor the focus nor the alarms nor the storage:
    all it does to the interface is add events after those already there;
    and the only exception that can leave it is the [AttributeError] of an
    address the account manager does not know. *)
Theorem ComposeCommand_only_adds_events config encode_header parseaddr lookup
  (self : ComposeCommand) (answers : list Answer) (ui : UI) :
  only_events_added ui
    (step_ui (ComposeCommand_run config encode_header parseaddr lookup self answers ui)) /\
  ((forall addr, addr ∈ address <$> accounts ui -> is_Some (lookup addr)) ->
   forall e ui',
     ComposeCommand_run config encode_header parseaddr lookup self answers ui
     <> Finish (Failed e ui')).
Proof.
  split.
  - unfold ComposeCommand_run.
    eapply only_events_added_trans; [apply ComposeCommand_apply_frame|].
    apply drive_frame. intros. apply ComposeCommand_resume_frame.
  - intros Hlookup. unfold ComposeCommand_run.
    set (resume := ComposeCommand_resume config encode_header parseaddr lookup).
    set (good (st : Step (ComposePC * ComposeCommand)) :=
           match st with
           | Yield _ (AtFrom accs, _) _ => accs = accounts ui
           | Yield _ _ _ => True
           | Finish (Done _) => True
           | Finish (Failed _ _) => False
           end).
    assert (Hto : forall s u, good (compose_to config parseaddr lookup s u)).
    { intros s u. unfold compose_to, compose_subject, compose_envelope.
      destruct (negb _); [done|]. by destruct (_ && _). }
    assert (Hsub : forall s u, good (compose_subject config s u)).
    { intros s u. unfold compose_subject, compose_envelope. by destruct (_ && _). }
    assert (Hdrive : forall answers st, good st -> good (drive resume answers st)).
    { clear answers. induction answers as [|a rest IH]; intros st Hst.
      - by destruct st.
      - destruct st as [r [pc s] u|o]; [|done]. cbn [drive]. apply IH.
        unfold resume, ComposeCommand_resume. cbn [fst snd].
        destruct pc as [accs| |]; simpl in Hst.
        + subst accs. destruct (valid_address (accounts ui) a) eqn:Hv; simpl; [|done].
          destruct a as [addr|]; [|done]. destruct addr as [|c addr]; [done|].
          simpl in Hv. apply bool_decide_eq_true in Hv.
          destruct (Hlookup _ Hv) as [acc ->]. apply Hto.
        + destruct a; [apply Hsub | done].
        + by destruct a. }
    intros e ui' Hrun.
    assert (Hgood : good (drive resume answers
              (ComposeCommand_apply config parseaddr lookup self ui))).
    { apply Hdrive. unfold ComposeCommand_apply.
      destruct (negb _); [|apply Hto].
      destruct (accounts ui) as [|a [|a' accs]] eqn:Hacc; [done | apply Hto | done]. }
    by rewrite Hrun in Hgood.
Qed.

Lemma drive_yield {S : Type} (resume : S -> Answer -> UI -> Step S)
  (a : Answer) (rest : list Answer) (r : Request) (s : S) (ui : UI) :
  drive resume (a :: rest) (Yield r s ui) = drive resume rest (resume s a ui).
Proof. reflexivity. Qed.

Lemma resume_from_known config encode_header parseaddr lookup
  (accs : list Account) (self : ComposeCommand) (addr : string) (a : Account)
  (ui : UI) :
  addr ∈ address <$> accs -> addr <> "" -> lookup addr = Some a ->
  ComposeCommand_resume config encode_header parseaddr lookup
    (AtFrom accs, self) (Some addr) ui
  = compose_to config parseaddr lookup
      (mkCompose (msg_set "From" (from_header a) (mail self))) ui.
Proof.
  intros Hin Hne Hlook. unfold ComposeCommand_resume. cbn [fst snd valid_address].
  rewrite bool_decide_true by done. cbn [negb].
  destruct addr as [|c addr']; [done|]. by rewrite Hlook.
Qed.

Lemma compose_to_asks config parseaddr lookup (self : ComposeCommand) (ui : UI) :
  msg_contains "To" (mail self) = false ->
  compose_to config parseaddr lookup self ui
  = Yield (ReqPrompt "To>"
             (ContactsCompleter
                [lookup (snd (parseaddr (default "None" (msg_get "From" (mail self)))))]
                (negb (complete_matching_abook_only config))) 0)
          (AtTo, self)
          (emit (EvLogDebugBooks
                   [lookup (snd (parseaddr (default "None" (msg_get "From" (mail self)))))]
                   (negb (complete_matching_abook_only config)))
             (emit (EvLogDebugBool (negb (complete_matching_abook_only config))) ui)).
Proof. intros HT. unfold compose_to. by rewrite HT. Qed.

(** X18: the whole dialogue.  With several accounts and a draft that has
    no From, To or Subject yet, answering the three prompts with a known
    address, a recipient and a subject hands on the draft with exactly
    these three headers added, in this order, the From header built from
    the chosen account; nothing is notified. *)
Theorem ComposeCommand_dialogue config encode_header parseaddr lookup
  (self : ComposeCommand) (ui : UI) (a1 a2 a : Account) (accs : list Account)
  (addr to subject : string) (rest : list Answer) :
  msg_contains "From" (mail self) = false ->
  msg_contains "To" (mail self) = false ->
  msg_contains "Subject" (mail self) = false ->
  ask_subject config = true ->
  accounts ui = a1 :: a2 :: accs ->
  addr ∈ address <$> a1 :: a2 :: accs ->
  addr <> "" ->
  lookup addr = Some a ->
  exists ui',
    ComposeCommand_run config encode_header parseaddr lookup self
      (Some addr :: Some to :: Some subject :: rest) ui = Finish (Done ui') /\
    last (events ui') =
      Some (EvEnvelopeEdit
              (mail self ++ [("From", from_header a);
                             ("To", encode_header "to" to);
                             ("Subject", encode_header "subject" subject)])) /\
    notifications ui' = notifications ui /\
    only_events_added ui ui'.
Proof.
  intros HF HT HS Hask Hacc Haddr Hne Hlook.
  assert (Hrun : ComposeCommand_run config encode_header parseaddr lookup self
            (Some addr :: Some to :: Some subject :: rest) ui
          = Finish (Done
              (emit (EvEnvelopeEdit
                       (mail self ++ [("From", from_header a);
                                      ("To", encode_header "to" to);
                                      ("Subject", encode_header "subject" subject)]))
                 (emit (EvLogDebugBooks
                          [lookup (snd (parseaddr (from_header a)))]
                          (negb (complete_matching_abook_only config)))
                    (emit (EvLogDebugBool (negb (complete_matching_abook_only config)))
                       ui))))).
  { unfold ComposeCommand_run, ComposeCommand_apply. rewrite HF, Hacc. cbn [negb].
    rewrite drive_yield, (resume_from_known _ _ _ _ _ _ addr a) by done.
    rewrite compose_to_asks
      by (cbn [mail]; by rewrite msg_contains_set, HT).
    cbn [mail]. rewrite msg_get_set_absent by done. cbn [default].
    rewrite drive_yield. unfold ComposeCommand_resume at 2. cbn [fst snd mail].
    unfold compose_subject. cbn [mail]. rewrite Hask.
    rewrite !msg_contains_set, HS.
    rewrite (bool_decide_false (lower "From" = lower "Subject")) by discriminate.
    rewrite (bool_decide_false (lower "To" = lower "Subject")) by discriminate.
    cbn [orb negb andb]. rewrite drive_yield.
    unfold ComposeCommand_resume. cbn [fst snd mail]. unfold compose_envelope.
    rewrite drive_finish. unfold msg_set. by rewrite <- !app_assoc. }
  eexists. split; [exact Hrun|]. split; [|split].
  - simpl. by rewrite last_snoc.
  - unfold notifications. simpl. rewrite !omap_app. simpl. by rewrite !app_nil_r.
  - do 3 apply only_events_added_emit. apply only_events_added_refl.
Qed.

Lemma ComposeCommand_dialogue_witness :
  exists ui',
    ComposeCommand_run config_sample encode_sample parseaddr_sample lookup_sample
      (ComposeCommand_init encode_sample None [] "" "" [] [] [])
      [Some "bob@example.org"; Some "carol@example.org"; Some "hi"] ui_two_accounts
    = Finish (Done ui') /\
    last (events ui') =
      Some (EvEnvelopeEdit
              (new_multipart ++ [("From", "Bob <bob@example.org>");
                                 ("To", "carol@example.org");
                                 ("Subject", "hi")])).
Proof.
  destruct (ComposeCommand_dialogue config_sample encode_sample parseaddr_sample
              lookup_sample (ComposeCommand_init encode_sample None [] "" "" [] [] [])
              ui_two_accounts alice bob bob [] "bob@example.org" "carol@example.org"
              "hi" [])
    as (ui' & Hrun & Hlast & _); try reflexivity.
  - compute_done.
  - discriminate.
  - exists ui'. split; [exact Hrun | exact Hlast].
Defined.

(** X19: with exactly one account nobody is asked for the sender: its
    name and address become the From header and the first prompt, if the
    draft has no recipient, is the one for To. *)
Theorem ComposeCommand_single_account config encode_header parseaddr lookup
  (self : ComposeCommand) (ui : UI) (a : Account) :
  msg_contains "From" (mail self) = false ->
  msg_contains "To" (mail self) = false ->
  accounts ui = [a] ->
  exists completer ui',
    ComposeCommand_run config encode_header parseaddr lookup self [] ui
      = Yield (ReqPrompt "To>" completer 0)
              (AtTo, mkCompose (mail self ++ [("From", realname a +:+ " <" +:+ address a +:+ ">")]))
              ui' /\
    notifications ui' = notifications ui.
Proof.
  intros HF HT Hacc. unfold ComposeCommand_run, ComposeCommand_apply.
  rewrite HF, Hacc. cbn [negb drive]. unfold compose_to. cbn [mail].
  rewrite msg_contains_set, HT.
  rewrite (bool_decide_false (lower "From" = lower "To")) by discriminate.
  cbn [orb negb]. eexists _, _. split; [reflexivity|].
  unfold notifications. simpl. rewrite !omap_app. simpl. by rewrite !app_nil_r.
Qed.

Lemma ComposeCommand_single_account_witness :
  exists completer ui',
    ComposeCommand_run config_sample encode_sample parseaddr_sample lookup_sample
      (mkCompose new_multipart) [] (mkUI [] None [] [] [] O [alice])
    = Yield (ReqPrompt "To>" completer 0)
            (AtTo, mkCompose (new_multipart ++ [("From", "Alice <alice@example.org>")]))
            ui'.
Proof.
  destruct (ComposeCommand_single_account config_sample encode_sample parseaddr_sample
              lookup_sample (mkCompose new_multipart)
              (mkUI [] None [] [] [] O [alice]) alice eq_refl eq_refl eq_refl)
    as (completer & ui' & Hrun & _).
  exists completer, ui'. exact Hrun.
Defined.

Lemma compose_complete config encode_header parseaddr lookup
  (self : ComposeCommand) (answers : list Answer) (ui : UI) :
  msg_contains "From" (mail self) = true ->
  msg_contains "To" (mail self) = true ->
  ask_subject config = false \/ msg_contains "Subject" (mail self) = true ->
  ComposeCommand_run config encode_header parseaddr lookup self answers ui
  = Finish (Done (emit (EvEnvelopeEdit (mail self)) ui)).
Proof.
  intros HF HT HS. unfold ComposeCommand_run, ComposeCommand_apply.
  rewrite HF. cbn [negb]. unfold compose_to. rewrite HT. cbn [negb].
  unfold compose_subject, compose_envelope.
  replace (ask_subject config && negb (msg_contains "Subject" (mail self))) with false.
  { apply drive_finish. }
  destruct HS as [-> | ->]; [done|]. by rewrite andb_false_r.
Qed.

(** X20: a draft that already has its sender and recipient, and its
    subject unless subjects are not asked for, is handed on unchanged at
    once: no prompt, no notification, and the accounts are not looked at;
    header names count whatever their case. *)
Theorem ComposeCommand_complete_draft config encode_header parseaddr lookup
  (self : ComposeCommand) (answers : list Answer) (ui : UI) :
  msg_contains "From" (mail self) = true ->
  msg_contains "To" (mail self) = true ->
  ask_subject config = false \/ msg_contains "Subject" (mail self) = true ->
  ComposeCommand_run config encode_header parseaddr lookup self answers ui
    = Finish (Done (emit (EvEnvelopeEdit (mail self)) ui)) /\
  notifications (emit (EvEnvelopeEdit (mail self)) ui) = notifications ui.
Proof.
  intros HF HT HS. split; [by apply compose_complete|].
  unfold notifications. simpl. rewrite omap_app. simpl. by rewrite app_nil_r.
Qed.

Lemma ComposeCommand_complete_draft_witness :
  ComposeCommand_run config_sample encode_sample parseaddr_sample lookup_sample
    (mkCompose [("from", "alice@example.org"); ("TO", "bob@example.org");
                ("Subject", "hi")])
    [] (mkUI [] None [] [] [] O [])
  = Finish (Done (emit (EvEnvelopeEdit
      [("from", "alice@example.org"); ("TO", "bob@example.org"); ("Subject", "hi")])
      (mkUI [] None [] [] [] O []))).
Proof.
  apply (ComposeCommand_complete_draft config_sample encode_sample parseaddr_sample
           lookup_sample
           (mkCompose [("from", "alice@example.org"); ("TO", "bob@example.org");
                       ("Subject", "hi")])
           [] (mkUI [] None [] [] [] O [])).
  - reflexivity.
  - reflexivity.
  - right. reflexivity.
Defined.

Lemma msg_contains_set_if encode_header (cond : bool) (name key value : string)
  (msg : Message) :
  msg_contains name msg = true ->
  msg_contains name (set_if encode_header cond key value msg) = true.
Proof.
  intros H. unfold set_if. destruct cond; [|done].
  by rewrite msg_contains_set, H.
Qed.

Lemma msg_contains_set_if_same encode_header (name value : string) (msg : Message) :
  msg_contains name (set_if encode_header true name value msg) = true.
Proof.
  unfold set_if. rewrite msg_contains_set, bool_decide_true by done.
  apply orb_true_r.
Qed.

(** X21: a command built with a sender, recipients and a subject asks
    nothing: whatever draft and extra headers it was given, it hands the
    envelope on at once. *)
Theorem ComposeCommand_init_complete config encode_header parseaddr lookup
  (draft : option Message) (headers : list (string * string))
  (sender subject : string) (to cc bcc : list string)
  (answers : list Answer) (ui : UI) :
  sender <> "" -> subject <> "" -> to <> [] ->
  let self := ComposeCommand_init encode_header draft headers sender subject to cc bcc in
  ComposeCommand_run config encode_header parseaddr lookup self answers ui
  = Finish (Done (emit (EvEnvelopeEdit (mail self)) ui)).
Proof.
  intros Hs Hsub Hto self.
  apply compose_complete; [| |right];
    unfold self, ComposeCommand_init; cbn [mail];
    rewrite !(bool_decide_false (sender = "")), !(bool_decide_false (subject = "")),
            !(bool_decide_false (to = [])) by done; cbn [negb].
  - do 4 apply msg_contains_set_if. apply msg_contains_set_if_same.
  - do 2 apply msg_contains_set_if. apply msg_contains_set_if_same.
  - do 3 apply msg_contains_set_if. apply msg_contains_set_if_same.
Qed.

Lemma ComposeCommand_init_complete_witness :
  ComposeCommand_run config_sample encode_sample parseaddr_sample lookup_sample
    (ComposeCommand_init encode_sample None [] "alice@example.org" "hi"
       ["bob@example.org"; "carol@example.org"] [] [])
    [] ui_two_accounts
  = Finish (Done (emit (EvEnvelopeEdit
      (new_multipart ++ [("From", "alice@example.org"); ("Subject", "hi");
                         ("To", "bob@example.org,carol@example.org")]))
      ui_two_accounts)).
Proof.
  apply (ComposeCommand_init_complete config_sample encode_sample parseaddr_sample
           lookup_sample None [] "alice@example.org" "hi"
           ["bob@example.org"; "carol@example.org"] [] [] [] ui_two_accounts);
    discriminate.
Defined.

(** X22: there is no limit to the From prompt: after any number of
    answers that name no account the command is still waiting at that
    prompt, with the draft unchanged, having notified the user once per
    answer. *)
Theorem ComposeCommand_from_loop config encode_header parseaddr lookup
  (self : ComposeCommand) (ui : UI) (a1 a2 : Account) (accs : list Account)
  (bad : list Answer) :
  msg_contains "From" (mail self) = false ->
  accounts ui = a1 :: a2 :: accs ->
  Forall (fun a => valid_address (a1 :: a2 :: accs) a = false) bad ->
  exists tab ui',
    ComposeCommand_run config encode_header parseaddr lookup self bad ui
      = Yield (ReqPrompt "From>" (AccountCompleter (a1 :: a2 :: accs)) tab)
              (AtFrom (a1 :: a2 :: accs), self) ui' /\
    tab = (if bool_decide (bad = []) then 1%nat else 0%nat) /\
    notifications ui' = notifications ui
                        ++ replicate (length bad) no_account_message /\
    only_events_added ui ui'.
Proof.
  intros HF Hacc Hbad. unfold ComposeCommand_run, ComposeCommand_apply.
  rewrite HF, Hacc. cbn [negb]. clear HF Hacc.
  assert (Hloop : forall bad, Forall (fun a => valid_address (a1 :: a2 :: accs) a = false) bad ->
            forall tab ui0, exists tab' ui',
              drive (ComposeCommand_resume config encode_header parseaddr lookup) bad
                (Yield (ReqPrompt "From>" (AccountCompleter (a1 :: a2 :: accs)) tab)
                       (AtFrom (a1 :: a2 :: accs), self) ui0)
              = Yield (ReqPrompt "From>" (AccountCompleter (a1 :: a2 :: accs)) tab')
                      (AtFrom (a1 :: a2 :: accs), self) ui' /\
              tab' = (if bool_decide (bad = []) then tab else 0%nat) /\
              notifications ui' = notifications ui0
                                  ++ replicate (length bad) no_account_message /\
              only_events_added ui0 ui').
  { clear bad Hbad. induction 1 as [|a bad Ha _ IH]; intros tab ui0.
    - exists tab, ui0. simpl. rewrite app_nil_r.
      repeat split; try done.
    - cbn [drive]. unfold ComposeCommand_resume at 2. cbn [fst snd].
      rewrite Ha. cbn [negb].
      destruct (IH 0%nat (notify no_account_message ui0)) as (tab' & ui' & Hd & Htab & Hn & Hev).
      exists tab', ui'. split; [exact Hd|]. split.
      { rewrite Htab. by destruct (bool_decide (bad = [])). }
      split.
      + rewrite Hn. unfold notifications at 1. simpl. rewrite omap_app. simpl.
        by rewrite <- app_assoc.
      + eapply only_events_added_trans; [|exact Hev].
        apply only_events_added_emit, only_events_added_refl. }
  destruct (Hloop bad Hbad 1%nat ui) as (tab' & ui' & Hd & Htab & Hn & Hev).
  by exists tab', ui'.
Qed.

Lemma ComposeCommand_from_loop_witness :
  exists tab ui',
    ComposeCommand_run config_sample encode_sample parseaddr_sample lookup_sample
      (mkCompose new_multipart) [Some ""; Some "nobody"] ui_two_accounts
    = Yield (ReqPrompt "From>" (AccountCompleter [alice; bob]) tab)
            (AtFrom [alice; bob], mkCompose new_multipart) ui' /\
    notifications ui' = [no_account_message; no_account_message].
Proof.
  destruct (ComposeCommand_from_loop config_sample encode_sample parseaddr_sample
              lookup_sample (mkCompose new_multipart) ui_two_accounts alice bob []
              [Some ""; Some "nobody"])
    as (tab & ui' & Hrun & _ & Hn & _).
  - reflexivity.
  - reflexivity.
  - repeat constructor.
  - exists tab, ui'. split; [exact Hrun | exact Hn].
Defined.

(** ** The consistency of the buffer stack *)

Lemma consistent_focus (b : Buffer) (ui : UI) :
  stack_consistent ui -> stack_consistent (buffer_focus b ui).
Proof.
  intros [Hnd Hcur]. unfold buffer_focus.
  destruct (buffer_in b (buffers ui)) eqn:Hin; [|done].
  split; [done|]. exact Hin.
Qed.

Lemma fresh_ident_not_elem (ui : UI) : fresh_ident ui ∉ ident <$> buffers ui.
Proof.
  intros Hin. apply list_elem_of_fmap in Hin as (x & Hid & Hx).
  pose proof (fresh_ident_not_in ui (body x)) as Hfresh.
  unfold buffer_in in Hfresh. apply not_true_iff_false in Hfresh. apply Hfresh.
  apply existsb_exists. exists x. split; [by apply list_elem_of_In|].
  unfold same_buffer. cbn [ident]. by apply Nat.eqb_eq.
Qed.

Lemma consistent_append (bd : BufferBody) (ui : UI) :
  stack_consistent ui ->
  stack_consistent
    (buffer_focus (mkBuffer (fresh_ident ui) bd)
       (set_buffers (buffers ui ++ [mkBuffer (fresh_ident ui) bd]) ui)).
Proof.
  intros [Hnd _].
  rewrite buffer_focus_member by (simpl; apply elem_of_app; right; by left).
  split; simpl.
  - rewrite fmap_app. apply NoDup_app. split; [done|]. split.
    + intros x Hx Hx'. simpl in Hx'. apply list_elem_of_singleton in Hx'. subst x.
      by apply (fresh_ident_not_elem ui).
    + simpl. apply NoDup_singleton.
  - apply buffer_in_elem. apply elem_of_app. right. by left.
Qed.

Lemma consistent_frame (ui ui' : UI) :
  buffers ui' = buffers ui -> current_buffer ui' = current_buffer ui ->
  stack_consistent ui -> stack_consistent ui'.
Proof. unfold stack_consistent. by intros -> ->. Qed.

(** X23: the commands that work on the buffer stack keep it consistent:
    if the open buffers are distinct objects and the focus, if any, is on
    one of them, this is still so after the focus command (any offset or
    buffer), the search command however it is answered, the buffer list
    and tag list commands, the refresh and flush commands, and after an
    external command and its completion when the success callback keeps it
    so. *)
Theorem commands_keep_stack_consistent (ui : UI) :
  stack_consistent ui ->
  (forall gsb self, stack_consistent (final_ui (BufferFocusCommand_apply gsb self ui))) /\
  (forall self answers, stack_consistent (step_ui (SearchCommand_run self answers ui))) /\
  (forall self, stack_consistent (final_ui (OpenBufferlistCommand_apply self ui))) /\
  (forall tags self, stack_consistent (final_ui (TagListCommand_apply tags self ui))) /\
  stack_consistent (final_ui (RefreshCommand_apply ui)) /\
  (forall config, stack_consistent (final_ui (FlushCommand_apply config ui))) /\
  (forall config quote enc split call self,
     stack_consistent (final_ui (fst (ExternalCommand_apply config quote enc split call
                                        self ui)))) /\
  (forall self caller data,
     (forall f, on_success self = Some f -> stack_consistent (f ui)) ->
     stack_consistent (afterwards self caller data ui)).
Proof.
  intros Hc. split; [|split; [|split; [|split; [|split; [|split; [|split]]]]]].
  - intros gsb self. unfold BufferFocusCommand_apply.
    destruct (negb _).
    + destruct (current_buffer ui) as [cur|] eqn:Hcur; simpl; [|by destruct Hc].
      destruct (index_of cur (buffers ui)); [|done].
      destruct (_ =? 0); [done|].
      destruct (buffers ui !! _); [|done]. by apply consistent_focus.
    + destruct (bf_buffer self); [by apply consistent_focus|].
      destruct (current_buffer ui) as [cur|] eqn:Hcur; [|done].
      destruct (gsb cur); [by apply consistent_focus | done].
  - intros self answers.
    assert (Hopen : stack_consistent (SearchCommand_open self ui)).
    { unfold SearchCommand_open. destruct (to_be_focused _ _); [by apply consistent_focus|].
      by apply consistent_append. }
    unfold SearchCommand_run, SearchCommand_apply.
    case_bool_decide; [|rewrite drive_finish; by apply (consistent_frame ui)].
    destruct (_ && _); [|by rewrite drive_finish].
    destruct answers as [|a rest]; [done|]. cbn [drive]. unfold SearchCommand_resume.
    case_bool_decide; by rewrite drive_finish.
  - intros self. unfold OpenBufferlistCommand_apply.
    destruct (get_buffers_of_type TBufferlist ui); [by apply consistent_append|].
    by apply consistent_focus.
  - intros tags self. by apply consistent_append.
  - unfold RefreshCommand_apply. destruct (current_buffer ui) eqn:E; [|done].
    by apply (consistent_frame ui).
  - intros config. unfold FlushCommand_apply, dbman_flush.
    destruct (match dbman ui with [] => FlushDone | o :: _ => o end);
      by apply (consistent_frame ui).
  - intros config quote enc split call self.
    unfold ExternalCommand_apply, thread_code.
    destruct (in_thread self); destruct (split _) as [argv|]; simpl;
      try (by apply (consistent_frame ui));
      destruct (call argv) as [rc|]; simpl; try (by apply (consistent_frame ui));
      destruct (rc =? 0); by apply (consistent_frame ui).
  - intros self caller data Hf. unfold afterwards.
    assert (H1 : stack_consistent
                   match on_success self with
                   | Some f => if bool_decide (data = "success") then f ui else ui
                   | None => ui
                   end).
    { destruct (on_success self) as [f|]; [|done].
      case_bool_decide; [by apply Hf | done]. }
    destruct caller as [cb|]; [|done].
    destruct (_ && _); [|done].
    apply consistent_focus. by apply (consistent_frame _ _ eq_refl eq_refl).
Qed.

Lemma commands_keep_stack_consistent_witness :
  stack_consistent
    (step_ui (SearchCommand_run (mkSearch "bar") [] ui_three)).
Proof.
  destruct (commands_keep_stack_consistent ui_three) as (_ & Hsearch & _).
  - split; [compute_done | reflexivity].
  - apply Hsearch.
Defined.

(** ** The bindings table of [HelpCommand] *)

Lemma maxkeylength_bound (keys : list string) (k : string) :
  k ∈ keys -> (String.length k <= foldr Nat.max O (String.length <$> keys))%nat.
Proof.
  induction 1 as [k l|k k' l _ IH]; rewrite fmap_cons; cbn [foldr]; lia.
Qed.

(** X24: the bindings help fails with [ValueError] exactly when neither the
    mode nor the global section binds any key.  Otherwise the table has
    two headings and one line per bound key: a key bound in the mode is
    shown with its mode binding, a key bound only globally with its global
    one, so every key is shown once, with the command it really triggers;
    and the key column is two characters wider than the longest key, also
    counting the global keys that are not shown. *)
Theorem HelpCommand_table (mode : string) (modemaps globalmaps : gmap string string) :
  (HelpCommand_linewidgets mode modemaps globalmaps = Raise ValueError <->
   modemaps = ∅ /\ globalmaps = ∅) /\
  forall lines,
    HelpCommand_linewidgets mode modemaps globalmaps = Ok lines ->
    (forall w k v,
       HelpBinding w k v ∈ lines <->
       (modemaps ∪ globalmaps) !! k = Some v /\
       w = (foldr Nat.max O (String.length <$>
              (map_to_list modemaps).*1 ++ (map_to_list globalmaps).*1) + 2)%nat) /\
    (forall w k v k',
       HelpBinding w k v ∈ lines ->
       is_Some (modemaps !! k') \/ is_Some (globalmaps !! k') ->
       (String.length k' + 2 <= w)%nat) /\
    length lines = (2 + size (modemaps ∪ globalmaps))%nat.
Proof.
  unfold HelpCommand_linewidgets, maxkeylength.
  destruct ((map_to_list modemaps).*1 ++ (map_to_list globalmaps).*1) as [|k0 ks] eqn:Hkeys.
  - apply app_eq_nil in Hkeys as [Hm Hg].
    apply fmap_nil_inv in Hm, Hg. apply map_to_list_empty_iff in Hm, Hg.
    split; [by split|]. by intros lines.
  - split.
    { split; [done|]. intros [-> ->]. by rewrite map_to_list_empty in Hkeys. }
    rewrite <- Hkeys. clear k0 ks Hkeys. simpl.
    set (width := (foldr Nat.max O (String.length <$>
              (map_to_list modemaps).*1 ++ (map_to_list globalmaps).*1) + 2)%nat).
    intros lines [= <-].
    assert (Hin : forall w k v,
      HelpBinding w k v ∈
        HelpHeading (newline +:+ mode +:+ "-mode specific maps")
        :: ((fun kv : string * string => HelpBinding width kv.1 kv.2) <$> map_to_list modemaps)
           ++ HelpHeading (newline +:+ "global maps")
              :: ((fun kv : string * string => HelpBinding width kv.1 kv.2) <$>
                    filter (fun kv => modemaps !! kv.1 = None) (map_to_list globalmaps))
      <-> (modemaps ∪ globalmaps) !! k = Some v /\ w = width).
    { intros w k v. rewrite elem_of_cons, elem_of_app, elem_of_cons.
      rewrite !list_elem_of_fmap. rewrite lookup_union_Some_raw. split.
      - intros [?|[([k1 v1] & [= -> -> ->] & Hkv)|[?|([k1 v1] & [= -> -> ->] & Hkv)]]];
          try done.
        + apply elem_of_map_to_list in Hkv. split; [by left | done].
        + apply list_elem_of_filter in Hkv as [Hnone Hkv].
          apply elem_of_map_to_list in Hkv. split; [by right | done].
      - intros [[Hm|[Hnone Hg]] ->].
        + right. left. exists (k, v). split; [done|]. by apply elem_of_map_to_list.
        + right. right. right. exists (k, v). split; [done|].
          apply list_elem_of_filter. split; [done|]. by apply elem_of_map_to_list. }
    split; [exact Hin|]. split.
    + intros w k v k' Hline Hk'. apply Hin in Hline as [_ ->]. unfold width.
      assert (k' ∈ (map_to_list modemaps).*1 ++ (map_to_list globalmaps).*1).
      { apply elem_of_app.
        destruct Hk' as [[v' Hv']|[v' Hv']]; [left|right];
          apply list_elem_of_fmap; exists (k', v');
          (split; [done|]); by apply elem_of_map_to_list. }
      pose proof (maxkeylength_bound _ _ H). lia.
    + simpl. rewrite length_app. simpl. rewrite !length_fmap.
      rewrite length_map_to_list.
      set (shown := filter (fun kv : string * string => modemaps !! kv.1 = None)
                          globalmaps).
      assert (Hunion : modemaps ∪ globalmaps = modemaps ∪ shown).
      { apply map_eq. intros i. rewrite !lookup_union.
        destruct (modemaps !! i) as [x|] eqn:Hm; simpl.
        - by rewrite !union_Some_l.
        - rewrite !(left_id None _).
          unfold shown. rewrite map_lookup_filter.
          destruct (globalmaps !! i) as [y|]; simpl; [|done].
          by rewrite option_guard_True. }
      assert (Hdisj : modemaps ##ₘ shown).
      { apply map_disjoint_spec. intros i x y Hm Hs.
        unfold shown in Hs. apply map_lookup_filter_Some in Hs as [_ Hnone].
        simpl in Hnone. congruence. }
      rewrite Hunion, (map_size_disj_union _ _ Hdisj).
      unfold shown. rewrite map_filter_alt, map_size_list_to_map; [lia|].
      eapply sublist_NoDup; [apply (NoDup_fst_map_to_list globalmaps)|].
      apply fmap_sublist, sublist_filter.
Qed.
